(** * Infinite image worker: streaming scheduler of [worker/worker.py]

    A shallow embedding of [InfiniteFlux2StreamHandlers]: the configuration
    store ([update_params]), the placeholder generator
    ([create_placeholder_frame], [pil_to_bhwc]), the synthesis loop
    ([_generate_images_for_video], [_run_inference_with_callback]), the frame
    emission loop ([_send_frames]) and the lifecycle handlers ([on_start],
    [on_stop]).

    Python values are modelled as they reach the handlers: a request is a
    [dict] of decoded JSON values; integers are unbounded ([Z]); exceptions
    are explicit results that keep the state mutated so far. *)

From Stdlib Require Import ZArith QArith Ascii String.
From stdpp Require Import gmap strings list.

#[local] Set Warnings "-register-all".
Local Close Scope Q_scope.
Local Open Scope Z_scope.

(** ** Python values *)

Module Py.

(** A Python [float].  A finite float is represented by the rational it
    denotes; rounding to binary64 and overflow to infinity inside string
    parsing are not modelled. *)
Inductive pyfloat :=
  | FNan
  | FInf (negative : bool)
  | FFin (q : Q).

(** Decoded request values. *)
Inductive pyval :=
  | PNone
  | PBool (b : bool)
  | PInt (z : Z)
  | PFloat (f : pyfloat)
  | PStr (s : string)
  | PList (l : list pyval)
  | PDict (d : gmap string pyval).

Inductive exn :=
  | ValueError
  | TypeError
  | AttributeError
  | OverflowError
  | MemoryError
  | ZeroDivisionError
  | IndexError
  | TimeoutError
  | RuntimeError (msg : string).

Inductive result (A : Type) :=
  | Ok (a : A)
  | Raise (e : exn).
Arguments Ok {A} a.
Arguments Raise {A} e.

Definition is_ok {A} (r : result A) : bool :=
  match r with Ok _ => true | Raise _ => false end.

(** *** Character classes used by [int()], [float()] and [str.lower()] *)

Definition code (c : ascii) : Z := Z.of_nat (nat_of_ascii c).

(** ASCII white space removed by [int()] and [float()] around a literal:
    tab, line feed, vertical tab, form feed, carriage return and space. *)
Definition is_space (c : ascii) : bool :=
  let n := code c in
  ((9 <=? n) && (n <=? 13)) || (n =? 32).

Definition digit_val (c : ascii) : option Z :=
  let n := code c in
  if (48 <=? n) && (n <=? 57) then Some (n - 48) else None.

Definition is_underscore (c : ascii) : bool := code c =? 95.

Definition lower_ascii (c : ascii) : ascii :=
  let n := code c in
  if (65 <=? n) && (n <=? 90) then ascii_of_nat (Z.to_nat (n + 32)) else c.

Fixpoint lstrip (l : list ascii) : list ascii :=
  match l with
  | c :: r => if is_space c then lstrip r else l
  | [] => []
  end.

Definition strip (l : list ascii) : list ascii :=
  rev (lstrip (rev (lstrip l))).

(** [digit ("_"? digit)*]: the longest run of decimal digits in which single
    underscores may separate digits.  Returns the digits and the rest. *)
Fixpoint read_digits (l : list ascii) : list Z * list ascii :=
  match l with
  | c :: r =>
      match digit_val c with
      | Some d =>
          match r with
          | u :: r' =>
              if is_underscore u then
                match read_digits r' with
                | ([], _) => ([d], r)
                | (ds, rest) => (d :: ds, rest)
                end
              else
                let '(ds, rest) := read_digits r in (d :: ds, rest)
          | [] => ([d], [])
          end
      | None => ([], l)
      end
  | [] => ([], [])
  end.

Definition digits_value (ds : list Z) : Z :=
  fold_left (fun acc d => 10 * acc + d) ds 0.

(** An optional sign; returns [true] for a minus sign. *)
Definition read_sign (l : list ascii) : bool * list ascii :=
  match l with
  | c :: r =>
      if code c =? 45 then (true, r)
      else if code c =? 43 then (false, r)
      else (false, l)
  | [] => (false, [])
  end.

Definition apply_sign (neg : bool) (z : Z) : Z := if neg then - z else z.

(** The number of digits [int()] converts at most
    ([sys.get_int_max_str_digits()], at its default). *)
Definition int_max_str_digits : Z := 4300.

(** [int(s)] for an ASCII [str] in base 10. *)
Definition int_of_str (s : string) : result Z :=
  let '(neg, body) := read_sign (strip (list_ascii_of_string s)) in
  match read_digits body with
  | (d :: ds, []) =>
      if int_max_str_digits <? Z.of_nat (length (d :: ds)) then Raise ValueError
      else Ok (apply_sign neg (digits_value (d :: ds)))
  | _ => Raise ValueError
  end.

Definition lower (s : string) : string :=
  string_of_list_ascii (map lower_ascii (list_ascii_of_string s)).

(** The exponent part of a float literal: [("e"|"E") sign? digits]. *)
Definition read_exponent (l : list ascii) : option Z :=
  match l with
  | [] => Some 0
  | c :: r =>
      if (code c =? 101) || (code c =? 69) then
        let '(neg, body) := read_sign r in
        match read_digits body with
        | (d :: ds, []) => Some (apply_sign neg (digits_value (d :: ds)))
        | _ => None
        end
      else None
  end.

Definition scale10 (m e : Z) : Q :=
  if 0 <=? e then Qmake (m * 10 ^ e) 1
  else Qmake m (Z.to_pos (10 ^ (- e))).

(** *** Rounding to binary64 *)

(** The integer nearest to [n / d] for [d > 0], a tie going to the even
    one. *)
Definition round_half_even (n d : Z) : Z :=
  let f := n / d in
  let r := 2 * (n mod d) in
  if r <? d then f
  else if d <? r then f + 1
  else if Z.even f then f else f + 1.

(** [a / d * 2 ^ k] as a fraction, for [k] of either sign. *)
Definition scale2 (a d k : Z) : Z * Z :=
  if 0 <=? k then (a * 2 ^ k, d) else (a, d * 2 ^ (- k)).

(** The float nearest to [a / d] for positive [a] and [d], as a mantissa
    [m] and an exponent [x] with value [m * 2 ^ x]: 53 bits of mantissa,
    exponents from -1074 (subnormal numbers included); nothing when the
    rounded value is beyond the largest float. *)
Definition nearest_binary64 (a d : Z) : option (Z * Z) :=
  let e0 := Z.log2 a - Z.log2 d in
  let '(n0, d0) := scale2 a d (- e0) in
  let e := if n0 <? d0 then e0 - 1 else e0 in
  let x := Z.max (e - 52) (-1074) in
  let '(n, d') := scale2 a d (- x) in
  let m := round_half_even n d' in
  if (0 <=? x) && (2 ^ 1024 <=? m * 2 ^ x) then None else Some (m, x).

Definition round_binary64 (q : Q) : option Q :=
  if Qnum q =? 0 then Some (Qmake 0 1)
  else
    match nearest_binary64 (Z.abs (Qnum q)) (Zpos (Qden q)) with
    | Some (m, x) =>
        let '(n, d) := scale2 (Z.sgn (Qnum q) * m) 1 x in
        Some (Qred (Qmake n (Z.to_pos d)))
    | None => None
    end.

(** [float(s)] for an ASCII [str]: the literal's value rounded to the
    nearest float, an infinity when that is out of range. *)
Definition float_of_str (s : string) : result pyfloat :=
  let '(neg, body) := read_sign (strip (list_ascii_of_string s)) in
  let word := lower (string_of_list_ascii body) in
  if (String.eqb word "inf" || String.eqb word "infinity")%bool then Ok (FInf neg)
  else if String.eqb word "nan" then Ok FNan
  else
    let '(ip, rest) := read_digits body in
    let '(fp, rest') :=
      match rest with
      | c :: r => if code c =? 46 then read_digits r else ([], rest)
      | [] => ([], [])
      end in
    match ip ++ fp with
    | [] => Raise ValueError
    | mant =>
        match read_exponent rest' with
        | Some e =>
            match round_binary64 (scale10 (apply_sign neg (digits_value mant))
                                          (e - Z.of_nat (length fp))) with
            | Some q => Ok (FFin q)
            | None => Ok (FInf neg)
            end
        | None => Raise ValueError
        end
    end.

(** *** The builtins [int()] and [float()] *)

Definition py_int (v : pyval) : result Z :=
  match v with
  | PInt z => Ok z
  | PBool b => Ok (if b then 1 else 0)
  | PFloat (FFin q) => Ok (Z.quot (Qnum q) (Zpos (Qden q)))
  | PFloat FNan => Raise ValueError
  | PFloat (FInf _) => Raise OverflowError
  | PStr s => int_of_str s
  | PNone | PList _ | PDict _ => Raise TypeError
  end.

Definition py_float (v : pyval) : result pyfloat :=
  match v with
  | PFloat f => Ok f
  | PInt z =>
      match round_binary64 (inject_Z z) with
      | Some q => Ok (FFin q)
      | None => Raise OverflowError
      end
  | PBool b => Ok (FFin (inject_Z (if b then 1 else 0)))
  | PStr s => float_of_str s
  | PNone | PList _ | PDict _ => Raise TypeError
  end.

(** [v == s] for a string literal [s]. *)
Definition eq_str (v : pyval) (s : string) : bool :=
  match v with
  | PStr t => String.eqb t s
  | _ => false
  end.

(** [a // b] on integers. *)
Definition floordiv (a b : Z) : result Z :=
  if b =? 0 then Raise ZeroDivisionError else Ok (a / b).

End Py.
Export Py.

(** ** Images and tensors *)

Module Img.

Definition rgb : Type := Z * Z * Z.

Definition black : rgb := (0, 0, 0).
Definition white : rgb := (255, 255, 255).

(** A PIL image in mode RGB: its size and its pixel buffer, keyed by
    [(x, y)].  A pixel that was never written holds the fill colour of
    [Image.new], which is black. *)
Record pil_image := {
  im_width : Z;
  im_height : Z;
  im_px : gmap (Z * Z) rgb;
}.

(** The largest C [int], and the widest line of 4-byte pixels the imaging
    core takes. *)
Definition c_int_max : Z := 2 ^ 31 - 1.
Definition max_line_pixels : Z := c_int_max / 4 - 1.

(** [Image.new("RGB", (width, height))].  The size check of [Image.new]
    rejects a negative side; handing the size to the imaging core fails
    for a side that does not fit a C [int]; the core then refuses a width
    beyond its line-size limit.  Beyond these checks the allocation is
    taken to find the memory it asks for. *)
Definition Image_new (width height : Z) : result pil_image :=
  if (width <? 0) || (height <? 0) then Raise ValueError
  else if (c_int_max <? width) || (c_int_max <? height) then Raise OverflowError
  else if max_line_pixels <? width then Raise MemoryError
  else Ok {| im_width := width; im_height := height; im_px := ∅ |}.

Definition in_image (img : pil_image) (x y : Z) : bool :=
  (0 <=? x) && (x <? im_width img) && (0 <=? y) && (y <? im_height img).

Definition getpixel (img : pil_image) (x y : Z) : rgb :=
  default black (im_px img !! (x, y)).

(** [img.putpixel((x, y), color)]; PIL rejects coordinates outside the
    image. *)
Definition putpixel (x y : Z) (color : rgb) (img : pil_image) : result pil_image :=
  if in_image img x y then
    Ok {| im_width := im_width img; im_height := im_height img;
          im_px := <[(x, y) := color]> (im_px img) |}
  else Raise IndexError.

(** A dense tensor: its shape and its element at a multi-index, as a
    rational. *)
Record tensor := {
  t_shape : list Z;
  t_at : list Z -> Q;
}.

Definition in_unit_interval (q : Q) : Prop := (0 <= q)%Q /\ (q <= 1)%Q.

Definition channel (c : Z) (p : rgb) : Z :=
  match p with
  | (r, g, b) => if c =? 0 then r else if c =? 1 then g else b
  end.

(** [torchvision.transforms.ToTensor()]: [C, H, W], bytes scaled by 1/255.
    The element kept here is the quotient itself; the stored float32 is
    the one nearest to it, the same number for the bytes 0 and 255. *)
Definition pil_to_tensor (img : pil_image) : tensor :=
  {| t_shape := [3; im_height img; im_width img];
     t_at := fun idx =>
       match idx with
       | [c; y; x] => Qmake (channel c (getpixel img x y)) 255
       | _ => 0%Q
       end |}.

Definition index_of (a : nat) (dims : list nat) : nat :=
  default 0%nat (list_find (fun d => d = a) dims ≫= fun p => Some (fst p)).

(** [t.permute(dims)]: axis [k] of the result is axis [dims[k]] of [t]. *)
Definition permute (dims : list nat) (t : tensor) : tensor :=
  {| t_shape := (fun d => default 0 (t_shape t !! d)) <$> dims;
     t_at := fun idx =>
       t_at t ((fun a => default 0 (idx !! index_of a dims)) <$> seq 0 (length dims)) |}.

(** [t.unsqueeze(0)]. *)
Definition unsqueeze0 (t : tensor) : tensor :=
  {| t_shape := 1 :: t_shape t;
     t_at := fun idx => match idx with _ :: rest => t_at t rest | [] => 0%Q end |}.

Definition pil_to_bhwc (img : pil_image) : tensor :=
  let t := pil_to_tensor img in
  let t := permute [1%nat; 2%nat; 0%nat] t in
  let t := unsqueeze0 t in
  t.

End Img.
Export Img.

(** ** Control flow helpers *)

(** [range(start, start + n)] *)
Fixpoint zrange (start : Z) (n : nat) : list Z :=
  match n with
  | O => []
  | S k => start :: zrange (start + 1) k
  end.

Definition range (stop : Z) : list Z := zrange 0 (Z.to_nat stop).
Definition range2 (start stop : Z) : list Z := zrange start (Z.to_nat (stop - start)).

(** A [for] loop whose body may raise. *)
Fixpoint for_each {A S : Type} (l : list A) (body : A -> S -> result S) (s : S) : result S :=
  match l with
  | [] => Ok s
  | a :: rest =>
      match body a s with
      | Ok s' => for_each rest body s'
      | Raise e => Raise e
      end
  end.

#[global] Instance result_ret : MRet result := fun A a => Ok a.
#[global] Instance result_bind : MBind result := fun A B k r =>
  match r with
  | Ok a => k a
  | Raise e => Raise e
  end.

(** ** Configuration *)

Record InfiniteFlux2Config := {
  prompt : pyval;
  height : Z;
  width : Z;
  reference_images : option (list string);
  steps : Z;
  guidance_scale : pyfloat;
  seed : Z;
  seed_adjustment : pyval;
  enhance_prompt : bool;
  enhance_guidance : pyval;
  processed_reference_images : option (list pil_image);
  prompt_guidance_doc : string;
}.

Definition default_cfg : InfiniteFlux2Config :=
  {| prompt := PStr "abstract watercolor sunset";
     height := 1024;
     width := 1024;
     reference_images := None;
     steps := 28;
     guidance_scale := FFin 4;
     seed := 42;
     seed_adjustment := PStr "increment";
     enhance_prompt := false;
     enhance_guidance := PStr "none";
     processed_reference_images := None;
     prompt_guidance_doc := "" |}.

(** ** Placeholder generator *)

Definition target_squares_per_dim : Z := 16.

Definition square_color (row col : Z) : rgb :=
  let is_black := (row + col) mod 2 =? 0 in
  if is_black then black else white.

(** The four nested loops of [create_placeholder_frame]. *)
Definition fill_square (width height square_size row col : Z) (img : pil_image)
  : result pil_image :=
  let color := square_color row col in
  let y_start := row * square_size in
  let y_end := (row + 1) * square_size in
  let x_start := col * square_size in
  let x_end := (col + 1) * square_size in
  for_each (range2 y_start (Z.min y_end height)) (fun y =>
    for_each (range2 x_start (Z.min x_end width)) (fun x =>
      putpixel x y color)) img.

Definition square_size (width height : Z) : result Z :=
  floordiv (Z.min width height) target_squares_per_dim.

Definition placeholder_image (height width : Z) : result pil_image :=
  img ← Image_new width height;
  square_size ← square_size width height;
  num_rows ← floordiv height square_size;
  num_cols ← floordiv width square_size;
  for_each (range num_rows) (fun row =>
    for_each (range num_cols) (fun col =>
      fill_square width height square_size row col)) img.

(** [create_placeholder_frame]: the value stored in [self.placeholder_frame],
    or the exception that leaves it as it was. *)
Definition create_placeholder_frame (cfg : InfiniteFlux2Config) : result tensor :=
  img ← placeholder_image (height cfg) (width cfg);
  Ok (pil_to_bhwc img).

(** ** Handler bodies

    A handler body runs on a state and ends with a value or with the
    exception that stopped it; the state keeps what was assigned before. *)

Definition stmt (St A : Type) : Type := St -> St * result A.

#[global] Instance stmt_ret {St : Type} : MRet (stmt St) :=
  fun A a s => (s, Ok a).
#[global] Instance stmt_bind {St : Type} : MBind (stmt St) :=
  fun A B k m s =>
    match m s with
    | (s', Ok a) => k a s'
    | (s', Raise e) => (s', Raise e)
    end.

Definition eval {St A : Type} (r : result A) : stmt St A := fun s => (s, r).
Definition attr {St A : Type} (get : St -> A) : stmt St A := fun s => (s, Ok (get s)).
Definition assign {St : Type} (f : St -> St) : stmt St unit := fun s => (f s, Ok tt).

(** ** Configuration store: [update_params] *)

Definition set_prompt (v : pyval) (r : InfiniteFlux2Config) : InfiniteFlux2Config :=
  {| prompt := v; height := height r; width := width r;
     reference_images := reference_images r; steps := steps r;
     guidance_scale := guidance_scale r; seed := seed r;
     seed_adjustment := seed_adjustment r; enhance_prompt := enhance_prompt r;
     enhance_guidance := enhance_guidance r;
     processed_reference_images := processed_reference_images r;
     prompt_guidance_doc := prompt_guidance_doc r |}.

Definition set_height (v : Z) (r : InfiniteFlux2Config) : InfiniteFlux2Config :=
  {| prompt := prompt r; height := v; width := width r;
     reference_images := reference_images r; steps := steps r;
     guidance_scale := guidance_scale r; seed := seed r;
     seed_adjustment := seed_adjustment r; enhance_prompt := enhance_prompt r;
     enhance_guidance := enhance_guidance r;
     processed_reference_images := processed_reference_images r;
     prompt_guidance_doc := prompt_guidance_doc r |}.

Definition set_width (v : Z) (r : InfiniteFlux2Config) : InfiniteFlux2Config :=
  {| prompt := prompt r; height := height r; width := v;
     reference_images := reference_images r; steps := steps r;
     guidance_scale := guidance_scale r; seed := seed r;
     seed_adjustment := seed_adjustment r; enhance_prompt := enhance_prompt r;
     enhance_guidance := enhance_guidance r;
     processed_reference_images := processed_reference_images r;
     prompt_guidance_doc := prompt_guidance_doc r |}.

Definition set_steps (v : Z) (r : InfiniteFlux2Config) : InfiniteFlux2Config :=
  {| prompt := prompt r; height := height r; width := width r;
     reference_images := reference_images r; steps := v;
     guidance_scale := guidance_scale r; seed := seed r;
     seed_adjustment := seed_adjustment r; enhance_prompt := enhance_prompt r;
     enhance_guidance := enhance_guidance r;
     processed_reference_images := processed_reference_images r;
     prompt_guidance_doc := prompt_guidance_doc r |}.

Definition set_guidance_scale (v : pyfloat) (r : InfiniteFlux2Config) : InfiniteFlux2Config :=
  {| prompt := prompt r; height := height r; width := width r;
     reference_images := reference_images r; steps := steps r; guidance_scale := v;
     seed := seed r; seed_adjustment := seed_adjustment r;
     enhance_prompt := enhance_prompt r; enhance_guidance := enhance_guidance r;
     processed_reference_images := processed_reference_images r;
     prompt_guidance_doc := prompt_guidance_doc r |}.

Definition set_seed (v : Z) (r : InfiniteFlux2Config) : InfiniteFlux2Config :=
  {| prompt := prompt r; height := height r; width := width r;
     reference_images := reference_images r; steps := steps r;
     guidance_scale := guidance_scale r; seed := v;
     seed_adjustment := seed_adjustment r; enhance_prompt := enhance_prompt r;
     enhance_guidance := enhance_guidance r;
     processed_reference_images := processed_reference_images r;
     prompt_guidance_doc := prompt_guidance_doc r |}.

Definition set_seed_adjustment (v : pyval) (r : InfiniteFlux2Config) : InfiniteFlux2Config :=
  {| prompt := prompt r; height := height r; width := width r;
     reference_images := reference_images r; steps := steps r;
     guidance_scale := guidance_scale r; seed := seed r; seed_adjustment := v;
     enhance_prompt := enhance_prompt r; enhance_guidance := enhance_guidance r;
     processed_reference_images := processed_reference_images r;
     prompt_guidance_doc := prompt_guidance_doc r |}.

Definition set_enhance_prompt (v : bool) (r : InfiniteFlux2Config) : InfiniteFlux2Config :=
  {| prompt := prompt r; height := height r; width := width r;
     reference_images := reference_images r; steps := steps r;
     guidance_scale := guidance_scale r; seed := seed r;
     seed_adjustment := seed_adjustment r; enhance_prompt := v;
     enhance_guidance := enhance_guidance r;
     processed_reference_images := processed_reference_images r;
     prompt_guidance_doc := prompt_guidance_doc r |}.

Definition set_enhance_guidance (v : pyval) (r : InfiniteFlux2Config) : InfiniteFlux2Config :=
  {| prompt := prompt r; height := height r; width := width r;
     reference_images := reference_images r; steps := steps r;
     guidance_scale := guidance_scale r; seed := seed r;
     seed_adjustment := seed_adjustment r; enhance_prompt := enhance_prompt r;
     enhance_guidance := v; processed_reference_images := processed_reference_images r;
     prompt_guidance_doc := prompt_guidance_doc r |}.

Definition set_processed_reference_images (v : option (list pil_image)) (r : InfiniteFlux2Config) : InfiniteFlux2Config :=
  {| prompt := prompt r; height := height r; width := width r;
     reference_images := reference_images r; steps := steps r;
     guidance_scale := guidance_scale r; seed := seed r;
     seed_adjustment := seed_adjustment r; enhance_prompt := enhance_prompt r;
     enhance_guidance := enhance_guidance r; processed_reference_images := v;
     prompt_guidance_doc := prompt_guidance_doc r |}.

Definition set_prompt_guidance_doc (v : string) (r : InfiniteFlux2Config) : InfiniteFlux2Config :=
  {| prompt := prompt r; height := height r; width := width r;
     reference_images := reference_images r; steps := steps r;
     guidance_scale := guidance_scale r; seed := seed r;
     seed_adjustment := seed_adjustment r; enhance_prompt := enhance_prompt r;
     enhance_guidance := enhance_guidance r;
     processed_reference_images := processed_reference_images r;
     prompt_guidance_doc := v |}.

(** [params.get(key, dflt)]; only a [dict] has [get]. *)
Definition params_get (params : pyval) (key : string) (dflt : pyval) : result pyval :=
  match params with
  | PDict d => Ok (default dflt (d !! key))
  | _ => Raise AttributeError
  end.

(** [v.lower()]; only a [str] has [lower]. *)
Definition str_lower (v : pyval) : result string :=
  match v with
  | PStr s => Ok (lower s)
  | _ => Raise AttributeError
  end.

Definition truthy : list string := ["yes"; "true"; "1"; "y"; "on"].

Definition in_tuple (s : string) (t : list string) : bool :=
  existsb (String.eqb s) t.

(** [if "params" in params: params = params["params"]] *)
Definition request_body (params : gmap string pyval) : pyval :=
  match params !! "params" with
  | Some inner => inner
  | None => PDict params
  end.

Definition update_params (params : gmap string pyval) : stmt InfiniteFlux2Config unit :=
  (* handle if params sent in key *)
  let params := request_body params in
  cur ← attr height;
  v ← eval (params_get params "height" (PInt cur) ≫= py_int);
  assign (set_height v);;
  cur ← attr width;
  v ← eval (params_get params "width" (PInt cur) ≫= py_int);
  assign (set_width v);;
  cur ← attr prompt;
  v ← eval (params_get params "prompt" cur);
  assign (set_prompt v);;
  cur ← attr steps;
  v ← eval (params_get params "steps" (PInt cur) ≫= py_int);
  assign (set_steps v);;
  cur ← attr guidance_scale;
  v ← eval (params_get params "guidance_scale" (PFloat cur) ≫= py_float);
  assign (set_guidance_scale v);;
  cur ← attr seed;
  v ← eval (params_get params "seed" (PInt cur) ≫= py_int);
  assign (set_seed v);;
  cur ← attr seed_adjustment;
  v ← eval (params_get params "seed_adjustment" cur);
  assign (set_seed_adjustment v);;
  v ← eval (params_get params "enhance_prompt" (PStr "no") ≫= str_lower);
  assign (set_enhance_prompt (in_tuple v truthy));;
  cur ← attr enhance_guidance;
  v ← eval (params_get params "enhance_guidance" cur);
  assign (set_enhance_guidance v);;
  (* Reset processed reference images on param update *)
  assign (set_processed_reference_images None).

(** *** The assignments of [update_params], one by one

    Used to say which assignments of a failed call took effect. *)

Inductive field :=
  | FHeight | FWidth | FPrompt | FSteps | FGuidanceScale | FSeed
  | FSeedAdjustment | FEnhancePrompt | FEnhanceGuidance
  | FProcessedReferenceImages.

(** The order in which [update_params] assigns. *)
Definition field_order : list field :=
  [FHeight; FWidth; FPrompt; FSteps; FGuidanceScale; FSeed;
   FSeedAdjustment; FEnhancePrompt; FEnhanceGuidance;
   FProcessedReferenceImages].

Inductive field_value :=
  | VInt (z : Z)
  | VFloat (f : pyfloat)
  | VAny (v : pyval)
  | VBool (b : bool)
  | VImages (o : option (list pil_image)).

Definition read_field (f : field) (c : InfiniteFlux2Config) : field_value :=
  match f with
  | FHeight => VInt (height c)
  | FWidth => VInt (width c)
  | FPrompt => VAny (prompt c)
  | FSteps => VInt (steps c)
  | FGuidanceScale => VFloat (guidance_scale c)
  | FSeed => VInt (seed c)
  | FSeedAdjustment => VAny (seed_adjustment c)
  | FEnhancePrompt => VBool (enhance_prompt c)
  | FEnhanceGuidance => VAny (enhance_guidance c)
  | FProcessedReferenceImages => VImages (processed_reference_images c)
  end.

(** The assignment of one field, as [update_params] writes it. *)
Definition assign_field (params : pyval) (f : field) : stmt InfiniteFlux2Config unit :=
  match f with
  | FHeight =>
      cur ← attr height;
      v ← eval (params_get params "height" (PInt cur) ≫= py_int);
      assign (set_height v)
  | FWidth =>
      cur ← attr width;
      v ← eval (params_get params "width" (PInt cur) ≫= py_int);
      assign (set_width v)
  | FPrompt =>
      cur ← attr prompt;
      v ← eval (params_get params "prompt" cur);
      assign (set_prompt v)
  | FSteps =>
      cur ← attr steps;
      v ← eval (params_get params "steps" (PInt cur) ≫= py_int);
      assign (set_steps v)
  | FGuidanceScale =>
      cur ← attr guidance_scale;
      v ← eval (params_get params "guidance_scale" (PFloat cur) ≫= py_float);
      assign (set_guidance_scale v)
  | FSeed =>
      cur ← attr seed;
      v ← eval (params_get params "seed" (PInt cur) ≫= py_int);
      assign (set_seed v)
  | FSeedAdjustment =>
      cur ← attr seed_adjustment;
      v ← eval (params_get params "seed_adjustment" cur);
      assign (set_seed_adjustment v)
  | FEnhancePrompt =>
      v ← eval (params_get params "enhance_prompt" (PStr "no") ≫= str_lower);
      assign (set_enhance_prompt (in_tuple v truthy))
  | FEnhanceGuidance =>
      cur ← attr enhance_guidance;
      v ← eval (params_get params "enhance_guidance" cur);
      assign (set_enhance_guidance v)
  | FProcessedReferenceImages =>
      assign (set_processed_reference_images None)
  end.

Fixpoint run_fields (params : pyval) (fs : list field) : stmt InfiniteFlux2Config unit :=
  match fs with
  | [] => mret tt
  | f :: rest => assign_field params f;; run_fields params rest
  end.

(** ** The handlers object

    The attributes of [InfiniteFlux2StreamHandlers] that the handlers read
    or write.  [processor] says whether [self.processor] is set;
    [pipe_interrupt] whether the interrupt callback has put the
    [_interrupt] attribute on the pipeline object (a pipeline class that
    sets the attribute in its own calls has it earlier than recorded
    here); [inference_lock] whether the lock is held;
    [inference_completed_event] whether the event is set;
    [background_tasks] holds task handles. *)

Record handlers := {
  cfg : InfiniteFlux2Config;
  processor : bool;
  background_tasks : list nat;
  background_task_started : bool;
  pipe_interrupt : bool;
  runner_ready : bool;
  inference_lock : bool;
  inference_in_progress : bool;
  inference_count : Z;
  interrupt_requested : bool;
  inference_completed_event : bool;
  frame_queue : list tensor;
  frame_timestamp : Z;
  timestamp_increment : Z;
  placeholder_frame : option tensor;
  current_frame : option tensor;
  no_audio_in_stream : bool;
}.

Definition set_cfg (v : InfiniteFlux2Config) (r : handlers) : handlers :=
  {| cfg := v; processor := processor r; background_tasks := background_tasks r;
     background_task_started := background_task_started r;
     pipe_interrupt := pipe_interrupt r; runner_ready := runner_ready r;
     inference_lock := inference_lock r;
     inference_in_progress := inference_in_progress r;
     inference_count := inference_count r;
     interrupt_requested := interrupt_requested r;
     inference_completed_event := inference_completed_event r;
     frame_queue := frame_queue r; frame_timestamp := frame_timestamp r;
     timestamp_increment := timestamp_increment r;
     placeholder_frame := placeholder_frame r; current_frame := current_frame r;
     no_audio_in_stream := no_audio_in_stream r |}.

Definition set_processor (v : bool) (r : handlers) : handlers :=
  {| cfg := cfg r; processor := v; background_tasks := background_tasks r;
     background_task_started := background_task_started r;
     pipe_interrupt := pipe_interrupt r; runner_ready := runner_ready r;
     inference_lock := inference_lock r;
     inference_in_progress := inference_in_progress r;
     inference_count := inference_count r;
     interrupt_requested := interrupt_requested r;
     inference_completed_event := inference_completed_event r;
     frame_queue := frame_queue r; frame_timestamp := frame_timestamp r;
     timestamp_increment := timestamp_increment r;
     placeholder_frame := placeholder_frame r; current_frame := current_frame r;
     no_audio_in_stream := no_audio_in_stream r |}.

Definition set_background_tasks (v : list nat) (r : handlers) : handlers :=
  {| cfg := cfg r; processor := processor r; background_tasks := v;
     background_task_started := background_task_started r;
     pipe_interrupt := pipe_interrupt r; runner_ready := runner_ready r;
     inference_lock := inference_lock r;
     inference_in_progress := inference_in_progress r;
     inference_count := inference_count r;
     interrupt_requested := interrupt_requested r;
     inference_completed_event := inference_completed_event r;
     frame_queue := frame_queue r; frame_timestamp := frame_timestamp r;
     timestamp_increment := timestamp_increment r;
     placeholder_frame := placeholder_frame r; current_frame := current_frame r;
     no_audio_in_stream := no_audio_in_stream r |}.

Definition set_background_task_started (v : bool) (r : handlers) : handlers :=
  {| cfg := cfg r; processor := processor r; background_tasks := background_tasks r;
     background_task_started := v; pipe_interrupt := pipe_interrupt r;
     runner_ready := runner_ready r; inference_lock := inference_lock r;
     inference_in_progress := inference_in_progress r;
     inference_count := inference_count r;
     interrupt_requested := interrupt_requested r;
     inference_completed_event := inference_completed_event r;
     frame_queue := frame_queue r; frame_timestamp := frame_timestamp r;
     timestamp_increment := timestamp_increment r;
     placeholder_frame := placeholder_frame r; current_frame := current_frame r;
     no_audio_in_stream := no_audio_in_stream r |}.

Definition set_pipe_interrupt (v : bool) (r : handlers) : handlers :=
  {| cfg := cfg r; processor := processor r; background_tasks := background_tasks r;
     background_task_started := background_task_started r; pipe_interrupt := v;
     runner_ready := runner_ready r; inference_lock := inference_lock r;
     inference_in_progress := inference_in_progress r;
     inference_count := inference_count r;
     interrupt_requested := interrupt_requested r;
     inference_completed_event := inference_completed_event r;
     frame_queue := frame_queue r; frame_timestamp := frame_timestamp r;
     timestamp_increment := timestamp_increment r;
     placeholder_frame := placeholder_frame r; current_frame := current_frame r;
     no_audio_in_stream := no_audio_in_stream r |}.

Definition set_runner_ready (v : bool) (r : handlers) : handlers :=
  {| cfg := cfg r; processor := processor r; background_tasks := background_tasks r;
     background_task_started := background_task_started r;
     pipe_interrupt := pipe_interrupt r; runner_ready := v;
     inference_lock := inference_lock r;
     inference_in_progress := inference_in_progress r;
     inference_count := inference_count r;
     interrupt_requested := interrupt_requested r;
     inference_completed_event := inference_completed_event r;
     frame_queue := frame_queue r; frame_timestamp := frame_timestamp r;
     timestamp_increment := timestamp_increment r;
     placeholder_frame := placeholder_frame r; current_frame := current_frame r;
     no_audio_in_stream := no_audio_in_stream r |}.

Definition set_inference_lock (v : bool) (r : handlers) : handlers :=
  {| cfg := cfg r; processor := processor r; background_tasks := background_tasks r;
     background_task_started := background_task_started r;
     pipe_interrupt := pipe_interrupt r; runner_ready := runner_ready r;
     inference_lock := v; inference_in_progress := inference_in_progress r;
     inference_count := inference_count r;
     interrupt_requested := interrupt_requested r;
     inference_completed_event := inference_completed_event r;
     frame_queue := frame_queue r; frame_timestamp := frame_timestamp r;
     timestamp_increment := timestamp_increment r;
     placeholder_frame := placeholder_frame r; current_frame := current_frame r;
     no_audio_in_stream := no_audio_in_stream r |}.

Definition set_inference_in_progress (v : bool) (r : handlers) : handlers :=
  {| cfg := cfg r; processor := processor r; background_tasks := background_tasks r;
     background_task_started := background_task_started r;
     pipe_interrupt := pipe_interrupt r; runner_ready := runner_ready r;
     inference_lock := inference_lock r; inference_in_progress := v;
     inference_count := inference_count r;
     interrupt_requested := interrupt_requested r;
     inference_completed_event := inference_completed_event r;
     frame_queue := frame_queue r; frame_timestamp := frame_timestamp r;
     timestamp_increment := timestamp_increment r;
     placeholder_frame := placeholder_frame r; current_frame := current_frame r;
     no_audio_in_stream := no_audio_in_stream r |}.

Definition set_inference_count (v : Z) (r : handlers) : handlers :=
  {| cfg := cfg r; processor := processor r; background_tasks := background_tasks r;
     background_task_started := background_task_started r;
     pipe_interrupt := pipe_interrupt r; runner_ready := runner_ready r;
     inference_lock := inference_lock r;
     inference_in_progress := inference_in_progress r; inference_count := v;
     interrupt_requested := interrupt_requested r;
     inference_completed_event := inference_completed_event r;
     frame_queue := frame_queue r; frame_timestamp := frame_timestamp r;
     timestamp_increment := timestamp_increment r;
     placeholder_frame := placeholder_frame r; current_frame := current_frame r;
     no_audio_in_stream := no_audio_in_stream r |}.

Definition set_interrupt_requested (v : bool) (r : handlers) : handlers :=
  {| cfg := cfg r; processor := processor r; background_tasks := background_tasks r;
     background_task_started := background_task_started r;
     pipe_interrupt := pipe_interrupt r; runner_ready := runner_ready r;
     inference_lock := inference_lock r;
     inference_in_progress := inference_in_progress r;
     inference_count := inference_count r; interrupt_requested := v;
     inference_completed_event := inference_completed_event r;
     frame_queue := frame_queue r; frame_timestamp := frame_timestamp r;
     timestamp_increment := timestamp_increment r;
     placeholder_frame := placeholder_frame r; current_frame := current_frame r;
     no_audio_in_stream := no_audio_in_stream r |}.

Definition set_inference_completed_event (v : bool) (r : handlers) : handlers :=
  {| cfg := cfg r; processor := processor r; background_tasks := background_tasks r;
     background_task_started := background_task_started r;
     pipe_interrupt := pipe_interrupt r; runner_ready := runner_ready r;
     inference_lock := inference_lock r;
     inference_in_progress := inference_in_progress r;
     inference_count := inference_count r;
     interrupt_requested := interrupt_requested r; inference_completed_event := v;
     frame_queue := frame_queue r; frame_timestamp := frame_timestamp r;
     timestamp_increment := timestamp_increment r;
     placeholder_frame := placeholder_frame r; current_frame := current_frame r;
     no_audio_in_stream := no_audio_in_stream r |}.

Definition set_frame_queue (v : list tensor) (r : handlers) : handlers :=
  {| cfg := cfg r; processor := processor r; background_tasks := background_tasks r;
     background_task_started := background_task_started r;
     pipe_interrupt := pipe_interrupt r; runner_ready := runner_ready r;
     inference_lock := inference_lock r;
     inference_in_progress := inference_in_progress r;
     inference_count := inference_count r;
     interrupt_requested := interrupt_requested r;
     inference_completed_event := inference_completed_event r; frame_queue := v;
     frame_timestamp := frame_timestamp r;
     timestamp_increment := timestamp_increment r;
     placeholder_frame := placeholder_frame r; current_frame := current_frame r;
     no_audio_in_stream := no_audio_in_stream r |}.

Definition set_frame_timestamp (v : Z) (r : handlers) : handlers :=
  {| cfg := cfg r; processor := processor r; background_tasks := background_tasks r;
     background_task_started := background_task_started r;
     pipe_interrupt := pipe_interrupt r; runner_ready := runner_ready r;
     inference_lock := inference_lock r;
     inference_in_progress := inference_in_progress r;
     inference_count := inference_count r;
     interrupt_requested := interrupt_requested r;
     inference_completed_event := inference_completed_event r;
     frame_queue := frame_queue r; frame_timestamp := v;
     timestamp_increment := timestamp_increment r;
     placeholder_frame := placeholder_frame r; current_frame := current_frame r;
     no_audio_in_stream := no_audio_in_stream r |}.

Definition set_timestamp_increment (v : Z) (r : handlers) : handlers :=
  {| cfg := cfg r; processor := processor r; background_tasks := background_tasks r;
     background_task_started := background_task_started r;
     pipe_interrupt := pipe_interrupt r; runner_ready := runner_ready r;
     inference_lock := inference_lock r;
     inference_in_progress := inference_in_progress r;
     inference_count := inference_count r;
     interrupt_requested := interrupt_requested r;
     inference_completed_event := inference_completed_event r;
     frame_queue := frame_queue r; frame_timestamp := frame_timestamp r;
     timestamp_increment := v; placeholder_frame := placeholder_frame r;
     current_frame := current_frame r; no_audio_in_stream := no_audio_in_stream r |}.

Definition set_placeholder_frame (v : option tensor) (r : handlers) : handlers :=
  {| cfg := cfg r; processor := processor r; background_tasks := background_tasks r;
     background_task_started := background_task_started r;
     pipe_interrupt := pipe_interrupt r; runner_ready := runner_ready r;
     inference_lock := inference_lock r;
     inference_in_progress := inference_in_progress r;
     inference_count := inference_count r;
     interrupt_requested := interrupt_requested r;
     inference_completed_event := inference_completed_event r;
     frame_queue := frame_queue r; frame_timestamp := frame_timestamp r;
     timestamp_increment := timestamp_increment r; placeholder_frame := v;
     current_frame := current_frame r; no_audio_in_stream := no_audio_in_stream r |}.

Definition set_current_frame (v : option tensor) (r : handlers) : handlers :=
  {| cfg := cfg r; processor := processor r; background_tasks := background_tasks r;
     background_task_started := background_task_started r;
     pipe_interrupt := pipe_interrupt r; runner_ready := runner_ready r;
     inference_lock := inference_lock r;
     inference_in_progress := inference_in_progress r;
     inference_count := inference_count r;
     interrupt_requested := interrupt_requested r;
     inference_completed_event := inference_completed_event r;
     frame_queue := frame_queue r; frame_timestamp := frame_timestamp r;
     timestamp_increment := timestamp_increment r;
     placeholder_frame := placeholder_frame r; current_frame := v;
     no_audio_in_stream := no_audio_in_stream r |}.

Definition time_base : Z := 90000.
Definition fps : Z := 16.
Definition time_base_frac : Q := Qmake 1 90000.

(** [__init__] *)
Definition init_handlers : handlers :=
  {| cfg := default_cfg;
     processor := false;
     background_tasks := [];
     background_task_started := false;
     pipe_interrupt := false;
     runner_ready := false;
     inference_lock := false;
     inference_in_progress := false;
     inference_count := 0;
     interrupt_requested := false;
     inference_completed_event := false;
     frame_queue := [];
     frame_timestamp := 0;
     timestamp_increment := time_base / fps;
     placeholder_frame := None;
     current_frame := None;
     no_audio_in_stream := true |}.

(** ** Tasks, worker threads and the transport sink *)

(** Where a [_generate_images_for_video] task is suspended. *)
Inductive gen_pc :=
  | GenCreated                (* created by [on_start], not yet run *)
  | GenAcquiring              (* waiting in [async with self.inference_lock] *)
  | GenInThread (j : nat)     (* holds the lock, awaits [asyncio.to_thread] *)
  | GenBackoff                (* [except]: [asyncio.sleep(1.0)] *)
  | GenSleeping.              (* [asyncio.sleep(0.1)] at the loop's end *)

Inductive task :=
  | GenTask (pc : gen_pc)
  | SendTask.

(** The prompt handed to the pipeline: the snapshot's prompt, or what
    [enhance_prompt] makes of it, which is determined by the instruction
    text (the guidance and the guide document interpolated into it) and the
    original prompt. *)
Inductive prompt_arg :=
  | Plain (p : pyval)
  | Enhanced (guidance : pyval) (guide_doc : string) (p : pyval).

(** The keyword arguments of the call [self.pipe(...)]. *)
Record pipe_kwargs := {
  kw_seed : Z;
  kw_image : option (list pil_image);
  kw_height : Z;
  kw_width : Z;
  kw_prompt : prompt_arg;
  kw_guidance_scale : pyfloat;
  kw_num_inference_steps : Z;
}.

(** A call of [_run_inference_with_callback] on a worker thread. *)
Inductive job :=
  | JobSubmitted                                       (* handed to the executor *)
  | JobStarted (snapshot : InfiniteFlux2Config)        (* state tracked, snapshot taken *)
  | JobCalling (snapshot : InfiniteFlux2Config) (kwargs : pipe_kwargs)  (* inside [self.pipe] *)
  | JobFinished (r : result pil_image).                (* [finally] done *)

Definition job_running (j : job) : bool :=
  match j with
  | JobStarted _ | JobCalling _ _ => true
  | JobSubmitted | JobFinished _ => false
  end.

(** What the synthesis engine does with a call: it returns an image, or
    raises an exception, which is represented by its message. *)
Inductive engine_outcome :=
  | Returned (img : pil_image)
  | Raised (msg : string).

(** Frames handed to [processor.send_input_frame]. *)
Inductive frame_out :=
  | VideoFrame (tensor : option tensor) (timestamp : Z) (time_base : Q)
  | AudioFrame (shape : Z * Z) (timestamp : Z) (time_base : Q).

(** The handlers object together with the event loop's tasks, the worker
    threads, the frames sent so far, the [on_stop] calls suspended in
    [asyncio.wait_for], the exceptions that left a handler and the warnings
    logged by [on_stop]. *)
Record world := {
  self : handlers;
  tasks : gmap nat task;
  jobs : gmap nat job;
  next_task : nat;
  next_job : nat;
  sent : list frame_out;
  stops_waiting : nat;
  surfaced : list exn;
  warnings : list string;
}.

Definition set_self (v : handlers) (r : world) : world :=
  {| self := v; tasks := tasks r; jobs := jobs r; next_task := next_task r;
     next_job := next_job r; sent := sent r; stops_waiting := stops_waiting r;
     surfaced := surfaced r; warnings := warnings r |}.

Definition set_tasks (v : gmap nat task) (r : world) : world :=
  {| self := self r; tasks := v; jobs := jobs r; next_task := next_task r;
     next_job := next_job r; sent := sent r; stops_waiting := stops_waiting r;
     surfaced := surfaced r; warnings := warnings r |}.

Definition set_jobs (v : gmap nat job) (r : world) : world :=
  {| self := self r; tasks := tasks r; jobs := v; next_task := next_task r;
     next_job := next_job r; sent := sent r; stops_waiting := stops_waiting r;
     surfaced := surfaced r; warnings := warnings r |}.

Definition set_next_task (v : nat) (r : world) : world :=
  {| self := self r; tasks := tasks r; jobs := jobs r; next_task := v;
     next_job := next_job r; sent := sent r; stops_waiting := stops_waiting r;
     surfaced := surfaced r; warnings := warnings r |}.

Definition set_next_job (v : nat) (r : world) : world :=
  {| self := self r; tasks := tasks r; jobs := jobs r; next_task := next_task r;
     next_job := v; sent := sent r; stops_waiting := stops_waiting r;
     surfaced := surfaced r; warnings := warnings r |}.

Definition set_sent (v : list frame_out) (r : world) : world :=
  {| self := self r; tasks := tasks r; jobs := jobs r; next_task := next_task r;
     next_job := next_job r; sent := v; stops_waiting := stops_waiting r;
     surfaced := surfaced r; warnings := warnings r |}.

Definition set_stops_waiting (v : nat) (r : world) : world :=
  {| self := self r; tasks := tasks r; jobs := jobs r; next_task := next_task r;
     next_job := next_job r; sent := sent r; stops_waiting := v;
     surfaced := surfaced r; warnings := warnings r |}.

Definition set_surfaced (v : list exn) (r : world) : world :=
  {| self := self r; tasks := tasks r; jobs := jobs r; next_task := next_task r;
     next_job := next_job r; sent := sent r; stops_waiting := stops_waiting r;
     surfaced := v; warnings := warnings r |}.

Definition set_warnings (v : list string) (r : world) : world :=
  {| self := self r; tasks := tasks r; jobs := jobs r; next_task := next_task r;
     next_job := next_job r; sent := sent r; stops_waiting := stops_waiting r;
     surfaced := surfaced r; warnings := v |}.

Definition upd_self (f : handlers -> handlers) (w : world) : world :=
  set_self (f (self w)) w.

Definition upd_cfg (f : InfiniteFlux2Config -> InfiniteFlux2Config) (h : handlers) : handlers :=
  set_cfg (f (cfg h)) h.

Definition surface (e : exn) (w : world) : world :=
  set_surfaced (surfaced w ++ [e]) w.

(** [main]: the handlers are created and attached to the processor. *)
Definition initial_world : world :=
  {| self := set_processor true init_handlers;
     tasks := ∅;
     jobs := ∅;
     next_task := 0;
     next_job := 0;
     sent := [];
     stops_waiting := 0;
     surfaced := [];
     warnings := [] |}.

(** ** Synthesis loop: [_generate_images_for_video] *)

(** [random.randint(a, b)], the draw made explicit by its raw entropy. *)
Definition randint (a b entropy : Z) : Z := a + entropy mod (b - a + 1).

Definition seed_max : Z := 2 ^ 32 - 1.

(** The seed update after a job that returned an image. *)
Definition advance_seed (entropy : Z) (c : InfiniteFlux2Config) : InfiniteFlux2Config :=
  if eq_str (seed_adjustment c) "increment" then set_seed (seed c + 1) c
  else if eq_str (seed_adjustment c) "decrement" then set_seed (seed c - 1) c
  else if eq_str (seed_adjustment c) "random" then set_seed (randint 0 seed_max entropy) c
  else c.

(** The lock is free: take it, hand the job to a worker thread and await it. *)
Definition enter_lock (t : nat) (w : world) : world :=
  let j := next_job w in
  let w := upd_self (set_inference_lock true) w in
  let w := set_jobs (<[j := JobSubmitted]> (jobs w)) w in
  let w := set_next_job (S j) w in
  set_tasks (<[t := GenTask (GenInThread j)]> (tasks w)) w.

(** The loop from its top to its first suspension. *)
Definition gen_loop_top (t : nat) (stop_event : bool) (w : world) : world :=
  if stop_event then set_tasks (delete t (tasks w)) w
  else
    (* Reset interrupt flag for new inference *)
    let w := upd_self (set_interrupt_requested false) w in
    if inference_lock (self w) then set_tasks (<[t := GenTask GenAcquiring]> (tasks w)) w
    else enter_lock t w.

(** The awaited thread is done: the rest of the [async with] body, or the
    [except] branch. *)
Definition gen_job_done (t j : nat) (res : result pil_image) (entropy : Z) (w : world)
  : world :=
  let w := set_jobs (delete j (jobs w)) w in
  match res with
  | Ok image =>
      (* update seed based on adjustment strategy *)
      let w := upd_self (upd_cfg (advance_seed entropy)) w in
      let w := upd_self (set_current_frame (Some (pil_to_bhwc image))) w in
      let w := upd_self (set_inference_lock false) w in
      set_tasks (<[t := GenTask GenSleeping]> (tasks w)) w
  | Raise _ =>
      let w := upd_self (set_inference_lock false) w in
      set_tasks (<[t := GenTask GenBackoff]> (tasks w)) w
  end.

(** ** Worker thread: [_run_inference_with_callback] *)

Fixpoint contains (needle hay : string) : bool :=
  String.prefix needle hay ||
  match hay with
  | EmptyString => false
  | String _ rest => contains needle rest
  end.

(** Track inference state, take the snapshot, clear the completion event. *)
Definition job_start (j : nat) (w : world) : world :=
  let w := upd_self (set_inference_in_progress true) w in
  let w := upd_self (fun h => set_inference_count (inference_count h + 1) h) w in
  let snapshot := cfg (self w) in
  let w := upd_self (set_inference_completed_event false) w in
  set_jobs (<[j := JobStarted snapshot]> (jobs w)) w.

(** [enhance_prompt]: the instruction text reads [self.cfg]. *)
Definition enhance (h : handlers) (p : pyval) : prompt_arg :=
  Enhanced (enhance_guidance (cfg h)) (prompt_guidance_doc (cfg h)) p.

(** From the snapshot to the call of the pipeline. *)
Definition job_call (j : nat) (snapshot : InfiniteFlux2Config) (w : world) : world :=
  let p :=
    if enhance_prompt snapshot then enhance (self w) (prompt snapshot)
    else Plain (prompt snapshot) in
  let kwargs :=
    {| kw_seed := seed snapshot;
       kw_image := processed_reference_images snapshot;
       kw_height := height snapshot;
       kw_width := width snapshot;
       kw_prompt := p;
       kw_guidance_scale := guidance_scale snapshot;
       kw_num_inference_steps := steps snapshot |} in
  set_jobs (<[j := JobCalling snapshot kwargs]> (jobs w)) w.

(** [interrupt_callback], called by the pipeline at a step end. *)
Definition interrupt_callback (w : world) : world :=
  if interrupt_requested (self w) then upd_self (set_pipe_interrupt true) w else w.

(** The pipeline returns or raises; the [except] and [finally] blocks. *)
Definition job_finish (j : nat) (out : engine_outcome) (w : world) : world :=
  let res :=
    match out with
    | Returned img => Ok img
    | Raised msg =>
        if contains "interrupt" (lower msg) || pipe_interrupt (self w)
        then Raise (RuntimeError "Inference was interrupted")
        else Raise (RuntimeError msg)
    end in
  let w := upd_self (set_inference_in_progress false) w in
  let w := upd_self (set_inference_completed_event true) w in
  set_jobs (<[j := JobFinished res]> (jobs w)) w.

(** ** Frame emission loop: [_send_frames] *)

Definition silent_audio_shape : Z * Z := (2, 48000 / fps).

(** One iteration of the loop, up to its sleep. *)
Definition send_tick (t : nat) (stop_event : bool) (w : world) : world :=
  if processor (self w) && stop_event then set_tasks (delete t (tasks w)) w
  else
    let h := self w in
    let timestamp := frame_timestamp h in
    let video_frame := VideoFrame (current_frame h) timestamp time_base_frac in
    let w := upd_self (set_frame_timestamp (timestamp + timestamp_increment h)) w in
    if processor h then
      let w := set_sent (sent w ++ [video_frame]) w in
      if no_audio_in_stream h then
        set_sent (sent w ++ [AudioFrame silent_audio_shape timestamp time_base_frac]) w
      else w
    else w.

(** ** Lifecycle: [load], [on_start], [on_stop] *)

(** [load]: [model_ok] says whether downloading, loading and warming up
    the models went through. *)
Definition on_load (doc : string) (model_ok : bool) (w : world) : world :=
  let w := upd_self (upd_cfg (set_prompt_guidance_doc doc)) w in
  if model_ok then
    match create_placeholder_frame (cfg (self w)) with
    | Ok ph =>
        let w := upd_self (set_placeholder_frame (Some ph)) w in
        upd_self (set_runner_ready true) w
    | Raise e => surface e (upd_self (set_runner_ready false) w)
    end
  else surface (RuntimeError "model loading failed") (upd_self (set_runner_ready false) w).

Definition call_update_params (params : gmap string pyval) (w : world) : world * result unit :=
  let '(c, r) := update_params params (cfg (self w)) in
  (upd_self (set_cfg c) w, r).

Definition on_update (params : gmap string pyval) (w : world) : world :=
  match call_update_params params w with
  | (w, Ok _) => w
  | (w, Raise e) => surface e w
  end.

Definition spawn (tk : task) (w : world) : world :=
  let t := next_task w in
  let w := set_tasks (<[t := tk]> (tasks w)) w in
  let w := set_next_task (S t) w in
  upd_self (fun h => set_background_tasks (background_tasks h ++ [t]) h) w.

Definition on_start (params : gmap string pyval) (w : world) : world :=
  let w := upd_self (set_background_task_started false) w in
  if negb (runner_ready (self w)) then
    surface (RuntimeError "Model not loaded - please wait for load() to complete") w
  else
    match call_update_params params w with
    | (w, Raise e) => surface e w
    | (w, Ok _) =>
        match create_placeholder_frame (cfg (self w)) with
        | Raise e => surface e w
        | Ok ph =>
            let w := upd_self (set_placeholder_frame (Some ph)) w in
            let w := upd_self (fun h => set_current_frame (placeholder_frame h) h) w in
            let w := spawn SendTask w in
            let w := spawn (GenTask GenCreated) w in
            let w := upd_self (set_frame_timestamp 0) w in
            upd_self (set_timestamp_increment (time_base / fps)) w
        end
    end.

(** [task.cancel()] on a task that is not done: the task ends at its
    suspension point; leaving [async with] releases the lock; the worker
    thread it awaited keeps running. *)
Definition cancel_task (w : world) (t : nat) : world :=
  match tasks w !! t with
  | Some (GenTask (GenInThread _)) =>
      set_tasks (delete t (tasks w)) (upd_self (set_inference_lock false) w)
  | Some _ => set_tasks (delete t (tasks w)) w
  | None => w
  end.

(** [on_stop] after its wait: drain the queue, cancel the tasks, reset. *)
Definition teardown (w : world) : world :=
  let w := upd_self (set_frame_queue []) w in
  let w := fold_left cancel_task (background_tasks (self w)) w in
  let w := upd_self (set_background_tasks []) w in
  upd_self (set_background_task_started false) w.

Definition stop_grace_period : Z := 20.

Definition timeout_warning : string :=
  "Inference did not complete within 20 seconds, proceeding anyway".

(** [asyncio.wait_for(aw, timeout)] when [aw] completes [ready_after] time
    units from now, or never: the time spent waiting and the outcome. *)
Definition wait_for (ready_after : option Z) (timeout : Z) : Z * result unit :=
  match ready_after with
  | Some d => if d <=? timeout then (Z.max 0 d, Ok tt) else (timeout, Raise TimeoutError)
  | None => (timeout, Raise TimeoutError)
  end.

(** The [try] around the wait: the time waited and the warning logged. *)
Definition on_stop_wait (ready_after : option Z) : Z * list string :=
  match wait_for ready_after stop_grace_period with
  | (waited, Ok _) => (waited, [])
  | (waited, Raise _) =>
      (waited, [timeout_warning])
  end.

(** [on_stop] up to its suspension, or to its end when nothing is awaited. *)
Definition on_stop (w : world) : world :=
  (* Set interrupt flag to stop any running inference *)
  let w := upd_self (set_interrupt_requested true) w in
  if inference_in_progress (self w) then set_stops_waiting (S (stops_waiting w)) w
  else teardown w.

(** A suspended [on_stop] resumes: the completion event was set
    [ready_after] time units after the call, or never. *)
Definition on_stop_resume (ready_after : option Z) (w : world) : world :=
  match stops_waiting w with
  | O => w
  | S n =>
      let w := set_stops_waiting n w in
      let w := set_warnings (warnings w ++ snd (on_stop_wait ready_after)) w in
      teardown w
  end.

(** ** Interleavings *)

Inductive event :=
  | EvLoad (doc : string) (model_ok : bool)
  | EvStart (params : gmap string pyval)
  | EvUpdate (params : gmap string pyval)
  | EvStop
  | EvStopResume (ready_after : option Z)
  | EvGenRun (t : nat) (stop_event : bool)
  | EvGenAcquired (t : nat)
  | EvGenJobDone (t : nat) (entropy : Z)
  | EvGenBackoffDone (t : nat)
  | EvJobStart (j : nat)
  | EvJobCall (j : nat)
  | EvJobStepEnd (j : nat)
  | EvJobFinish (j : nat) (out : engine_outcome)
  | EvSendTick (t : nat) (stop_event : bool).

(** One scheduling step.  An event that is not enabled leaves the world as
    it is. *)
Definition step (w : world) (e : event) : world :=
  match e with
  | EvLoad doc model_ok => on_load doc model_ok w
  | EvStart params => on_start params w
  | EvUpdate params => on_update params w
  | EvStop => on_stop w
  | EvStopResume ready_after => on_stop_resume ready_after w
  | EvGenRun t stop_event =>
      match tasks w !! t with
      | Some (GenTask GenCreated) | Some (GenTask GenSleeping) => gen_loop_top t stop_event w
      | _ => w
      end
  | EvGenAcquired t =>
      match tasks w !! t with
      | Some (GenTask GenAcquiring) => if inference_lock (self w) then w else enter_lock t w
      | _ => w
      end
  | EvGenJobDone t entropy =>
      match tasks w !! t with
      | Some (GenTask (GenInThread j)) =>
          match jobs w !! j with
          | Some (JobFinished res) => gen_job_done t j res entropy w
          | _ => w
          end
      | _ => w
      end
  | EvGenBackoffDone t =>
      match tasks w !! t with
      | Some (GenTask GenBackoff) => set_tasks (<[t := GenTask GenSleeping]> (tasks w)) w
      | _ => w
      end
  | EvJobStart j =>
      match jobs w !! j with
      | Some JobSubmitted => job_start j w
      | _ => w
      end
  | EvJobCall j =>
      match jobs w !! j with
      | Some (JobStarted snapshot) => job_call j snapshot w
      | _ => w
      end
  | EvJobStepEnd j =>
      match jobs w !! j with
      | Some (JobCalling _ _) => interrupt_callback w
      | _ => w
      end
  | EvJobFinish j out =>
      match jobs w !! j with
      | Some (JobCalling _ _) => job_finish j out w
      | Some (JobStarted _) =>
          match out with
          | Raised _ => job_finish j out w
          | Returned _ => w
          end
      | _ => w
      end
  | EvSendTick t stop_event =>
      match tasks w !! t with
      | Some SendTask => send_tick t stop_event w
      | _ => w
      end
  end.

Definition run (w : world) (trace : list event) : world := fold_left step trace w.

(** The worker threads that are inside [_run_inference_with_callback]. *)
Definition running_jobs (w : world) : list nat :=
  (map_to_list (filter (fun p => job_running (snd p) = true) (jobs w))).*1.

(** ** Vocabulary of the statements *)

Definition is_start (e : event) : bool :=
  match e with EvStart _ => true | _ => false end.


Inductive frame_kind := Video | Audio.

Definition stamp (f : frame_out) : frame_kind * Z :=
  match f with
  | VideoFrame _ t _ => (Video, t)
  | AudioFrame _ t _ => (Audio, t)
  end.

Definition frame_time_base (f : frame_out) : Q :=
  match f with
  | VideoFrame _ _ tb => tb
  | AudioFrame _ _ tb => tb
  end.

(** The first [n] ticks of a stream without its own audio: a video frame
    and a silent audio frame per tick, [delta] apart. *)
Definition cadence (delta : Z) (n : nat) : list (frame_kind * Z) :=
  flat_map (fun k => [(Video, Z.of_nat k * delta); (Audio, Z.of_nat k * delta)]) (seq 0 n).



(** ** Scenarios *)

Definition small_request : gmap string pyval :=
  <["height" := PInt 16]> {["width" := PInt 16]}.

Definition enhance_request : gmap string pyval :=
  <["enhance_prompt" := PStr "yes"]> small_request.

Definition guidance_request : gmap string pyval :=
  {["enhance_guidance" := PStr "film noir"]}.

Definition one_pixel : pil_image :=
  {| im_width := 1; im_height := 1; im_px := {[(0, 0) := white]} |}.

(** The world right after a successful [load] with guide document [doc]
    that stored the placeholder [ph]. *)
Definition loaded_world (doc : string) (ph : tensor) : world :=
  upd_self (set_runner_ready true)
    (upd_self (set_placeholder_frame (Some ph))
       (upd_self (upd_cfg (set_prompt_guidance_doc doc)) initial_world)).

(** A stop whose wait times out, followed by a new start: sessions of
    tasks 0, 1 and then 2, 3; jobs 0 and 1. *)
Definition restart_after_stop_timeout : list event :=
  [EvLoad "" true;
   EvStart small_request; EvGenRun 1 false; EvJobStart 0; EvJobCall 0;
   EvStop; EvStopResume None;
   EvStart small_request; EvGenRun 3 false; EvJobStart 1; EvJobCall 1].

(** A job with prompt enhancement up to its snapshot. *)
Definition enhanced_job_started : list event :=
  [EvLoad "" true; EvStart enhance_request; EvGenRun 1 false; EvJobStart 0].




(** The first job is inside the pipeline. *)
Definition job_in_progress : list event :=
  [EvLoad "" true; EvStart small_request;
   EvGenRun 1 false; EvJobStart 0; EvJobCall 0].

(** Three ticks of the emission loop among the steps of a slow job. *)
Definition ticks_during_job : list event :=
  [EvSendTick 0 false; EvGenRun 1 false; EvJobStart 0; EvSendTick 0 false;
   EvJobCall 0; EvUpdate guidance_request; EvSendTick 0 false;
   EvJobFinish 0 (Returned one_pixel)].

(** ** Predicates of the statements *)

Definition cfg_sized (h w : Z) : InfiniteFlux2Config :=
  set_width w (set_height h default_cfg).

Definition request_height_only : gmap string pyval := {["height" := PInt 512]}.

Definition request_bad_width : gmap string pyval :=
  <["height" := PStr "512"]> {["width" := PStr "abc"]}.

Definition same_size (img img' : pil_image) : Prop :=
  im_width img' = im_width img /\ im_height img' = im_height img.

(** [img'] is [img] overwritten by the partial picture [f]. *)
Definition paints (f : Z -> Z -> option rgb) (img img' : pil_image) : Prop :=
  same_size img img' /\
  forall x y, getpixel img' x y = default (getpixel img x y) (f x y).

Definition nothing : Z -> Z -> option rgb := fun _ _ => None.

Definition rect (x0 x1 y0 y1 : Z) (c : rgb) : Z -> Z -> option rgb :=
  fun x y =>
    if (x0 <=? x) && (x <? x1) && (y0 <=? y) && (y <? y1) then Some c else None.

(** The part of grid row [row] painted once columns [0 .. b) are done. *)
Definition band (w h s row b : Z) : Z -> Z -> option rgb :=
  fun x y =>
    if (0 <=? x) && (x <? Z.min (b * s) w)
       && (row * s <=? y) && (y <? Z.min ((row + 1) * s) h)
    then Some (square_color row (x / s)) else None.

(** The part of the board painted once rows [0 .. b) are done. *)
Definition board (w h s num_cols b : Z) : Z -> Z -> option rgb :=
  fun x y =>
    if (0 <=? x) && (x <? Z.min (num_cols * s) w)
       && (0 <=? y) && (y <? Z.min (b * s) h)
    then Some (square_color (y / s) (x / s)) else None.

(** What [teardown] leaves behind. *)
Definition torn_down (before after : world) : Prop :=
  background_tasks (self after) = [] /\
  background_task_started (self after) = false /\
  frame_queue (self after) = [] /\
  forall t, t ∈ background_tasks (self before) -> tasks after !! t = None.

Definition timing_view (w : world) : bool * bool * Z * Z * list frame_out :=
  (processor (self w), no_audio_in_stream (self w),
   timestamp_increment (self w), frame_timestamp (self w), sent w).

Definition is_send_tick (e : event) : bool :=
  match e with EvSendTick _ _ => true | _ => false end.

(** The emission invariant of a session: [n] ticks so far. *)
Definition emitting (base : list frame_out) (w : world) : Prop :=
  processor (self w) = true /\
  no_audio_in_stream (self w) = true /\
  timestamp_increment (self w) = time_base / fps /\
  exists (n : nat) (frames : list frame_out),
    frame_timestamp (self w) = Z.of_nat n * (time_base / fps) /\
    sent w = base ++ frames /\
    stamp <$> frames = cadence (time_base / fps) n /\
    Forall (fun f => frame_time_base f = time_base_frac) frames.




(** The lock does its work on the tasks: at most one task is inside
    [async with self.inference_lock], and the lock is held while one is. *)
Definition gate_exclusive (w : world) : Prop :=
  (forall t1 t2 j1 j2,
     tasks w !! t1 = Some (GenTask (GenInThread j1)) ->
     tasks w !! t2 = Some (GenTask (GenInThread j2)) -> t1 = t2) /\
  (forall t j, tasks w !! t = Some (GenTask (GenInThread j)) ->
     inference_lock (self w) = true).

Definition gate_ok (ts : gmap nat task) (lock : bool) : Prop :=
  (forall t1 t2 j1 j2,
     ts !! t1 = Some (GenTask (GenInThread j1)) ->
     ts !! t2 = Some (GenTask (GenInThread j2)) -> t1 = t2) /\
  (forall t j, ts !! t = Some (GenTask (GenInThread j)) -> lock = true).

Definition in_thread (tk : task) : bool :=
  match tk with GenTask (GenInThread _) => true | _ => false end.

(** ** Further vocabulary *)

Definition is_str (v : pyval) : bool :=
  match v with PStr _ => true | _ => false end.

Definition is_dict (v : pyval) : bool :=
  match v with PDict _ => true | _ => false end.

Definition wrapped_request : gmap string pyval :=
  <["params" := PDict request_height_only]> {["height" := PInt 7]}.

(** A request wrapped twice: height 9 outside, 512 in its [params] entry
    and 7 in the [params] entry of that. *)
Definition twice_wrapped_body : gmap string pyval :=
  <["params" := PDict {["height" := PInt 7]}]> request_height_only.

Definition twice_wrapped_request : gmap string pyval :=
  <["params" := PDict twice_wrapped_body]> {["height" := PInt 9]}.

Definition boolean_flag_request : gmap string pyval :=
  <["height" := PInt 512]> {["enhance_prompt" := PBool true]}.

Definition mixed_case_request : gmap string pyval :=
  {["enhance_prompt" := PStr "YeS"]}.

(** Structural invariants of the reachable worlds: task and job handles
    are fresh when allocated; a held lock has a task inside it; a raised
    in-progress flag has a worker thread behind it; every live task is
    listed in [background_tasks]. *)
Definition wf_parts (ts : gmap nat task) (js : gmap nat job) (nt nj : nat)
    (lock prog : bool) (bts : list nat) : Prop :=
  (forall t x, ts !! t = Some x -> (t < nt)%nat) /\
  (forall j x, js !! j = Some x -> (j < nj)%nat) /\
  (lock = true -> exists t j, ts !! t = Some (GenTask (GenInThread j))) /\
  (prog = true -> exists j x, js !! j = Some x /\ job_running x = true) /\
  (forall t x, ts !! t = Some x -> t ∈ bts).

Definition wf (w : world) : Prop :=
  wf_parts (tasks w) (jobs w) (next_task w) (next_job w)
    (inference_lock (self w)) (inference_in_progress (self w))
    (background_tasks (self w)).

Definition is_load_ok (e : event) : bool :=
  match e with EvLoad _ true => true | _ => false end.

Definition is_gen_run (e : event) : bool :=
  match e with EvGenRun _ _ => true | _ => false end.

(** [e] is a stop that runs to its end in [w]: an [on_stop] that has
    nothing to wait for, or the resumption of one that waited. *)
Definition completes_stop (w : world) (e : event) : bool :=
  match e with
  | EvStop => negb (inference_in_progress (self w))
  | EvStopResume _ => negb (Nat.eqb (stops_waiting w) 0)
  | _ => false
  end.

(** [e] is a step of worker thread [j] that changes its state. *)
Definition drives_job (j : nat) (e : event) : bool :=
  match e with
  | EvJobCall j' | EvJobFinish j' _ => Nat.eqb j j'
  | _ => false
  end.

(** The keyword arguments read from a snapshot, for a given prompt. *)
Definition snapshot_kwargs (snapshot : InfiniteFlux2Config) (p : prompt_arg)
  : pipe_kwargs :=
  {| kw_seed := seed snapshot;
     kw_image := processed_reference_images snapshot;
     kw_height := height snapshot;
     kw_width := width snapshot;
     kw_prompt := p;
     kw_guidance_scale := guidance_scale snapshot;
     kw_num_inference_steps := steps snapshot |}.

(** Requests and interleavings used as examples. *)
Definition tiny_request : gmap string pyval := {["height" := PInt 8]}.

Definition stop_during_job : list event :=
  job_in_progress ++ [EvStop].

Definition start_before_load : list event :=
  [EvStart small_request; EvGenRun 1 false; EvSendTick 0 false; EvLoad "" false;
   EvStart small_request].

(** Worker thread [j] is inside the pipeline call. *)
Definition in_pipeline (w : world) (j : nat) : bool :=
  match jobs w !! j with
  | Some (JobCalling _ _) => true
  | _ => false
  end.

(** Task [t] is at the top of the synthesis loop. *)
Definition at_loop_top (w : world) (t : nat) : bool :=
  match tasks w !! t with
  | Some (GenTask GenCreated) | Some (GenTask GenSleeping) => true
  | _ => false
  end.

Definition session_started : list event :=
  [EvLoad "" true; EvStart small_request].

Definition snapshot_taken : list event :=
  session_started ++ [EvGenRun 1 false; EvJobStart 0].

(** One pass of the synthesis loop of task [t] with worker thread [j],
    the engine returning [img]. *)
Definition successful_pass (t j : nat) (img : pil_image) (entropy : Z) : list event :=
  [EvGenRun t false; EvJobStart j; EvJobCall j; EvJobFinish j (Returned img);
   EvGenJobDone t entropy].

(** * Properties *)

(** ** Loops *)

Lemma elem_of_zrange (n : nat) : forall a i,
  i ∈ zrange a n <-> a <= i < a + Z.of_nat n.
Proof.
  induction n as [|n IH]; intros a i; simpl.
  - rewrite elem_of_nil. lia.
  - rewrite elem_of_cons, IH. lia.
Qed.

(** The invariant rule for a [for] loop over consecutive integers. *)
Lemma for_each_invariant {St : Type} (I : Z -> St -> Prop) (body : Z -> St -> result St)
    (n : nat) : forall (a : Z) (s : St),
  I a s ->
  (forall i s0, a <= i < a + Z.of_nat n -> I i s0 ->
     exists s1, body i s0 = Ok s1 /\ I (i + 1) s1) ->
  exists s', for_each (zrange a n) body s = Ok s' /\ I (a + Z.of_nat n) s'.
Proof.
  induction n as [|n IH]; intros a s Ha Hstep.
  - exists s. split; [reflexivity|]. replace (a + Z.of_nat 0) with a by lia. exact Ha.
  - destruct (Hstep a s) as (s1 & Hb & H1); [lia|exact Ha|].
    destruct (IH (a + 1) s1) as (s' & Hrun & Hfin); [exact H1| |].
    + intros i s0 Hi. apply Hstep. lia.
    + exists s'. simpl. rewrite Hb. split; [exact Hrun|].
      replace (a + Z.of_nat (S n)) with (a + 1 + Z.of_nat n) by lia. exact Hfin.
Qed.

(** ** Painting *)

Lemma paints_nothing img : paints nothing img img.
Proof. split; [split; reflexivity|]. intros; reflexivity. Qed.

Lemma paints_ext f g img img' :
  (forall x y, f x y = g x y) -> paints f img img' -> paints g img img'.
Proof.
  intros E [Hs Hp]. split; [exact Hs|]. intros x y. rewrite <- E. apply Hp.
Qed.

Lemma paints_step f g g' img0 img1 img2 :
  paints g img0 img1 ->
  paints f img1 img2 ->
  (forall x y, g' x y = match f x y with Some c => Some c | None => g x y end) ->
  paints g' img0 img2.
Proof.
  intros [[Hw1 Hh1] Hp1] [[Hw2 Hh2] Hp2] E. split.
  - split; congruence.
  - intros x y. rewrite Hp2, Hp1, E. destruct (f x y); reflexivity.
Qed.

Lemma putpixel_paints x y c img :
  in_image img x y = true ->
  exists img', putpixel x y c img = Ok img' /\
    paints (rect x (x + 1) y (y + 1) c) img img'.
Proof.
  intros Hin. unfold putpixel. rewrite Hin. eexists. split; [reflexivity|].
  split; [split; reflexivity|]. intros x' y'. unfold getpixel, rect; simpl.
  destruct (decide ((x, y) = (x', y'))) as [E|N].
  - inversion E; subst. rewrite lookup_insert_eq.
    replace ((x' <=? x') && (x' <? x' + 1) && (y' <=? y') && (y' <? y' + 1)) with true
      by (symmetry; rewrite !andb_true_iff; lia).
    reflexivity.
  - rewrite lookup_insert_ne by exact N.
    destruct ((x <=? x') && (x' <? x + 1) && (y <=? y') && (y' <? y + 1)) eqn:B;
      [|reflexivity].
    rewrite !andb_true_iff in B. exfalso. apply N. f_equal; lia.
Qed.

Ltac bool_lia :=
  repeat match goal with
  | |- context [if ?b then _ else _] => destruct b eqn:?
  | H : context [if ?b then _ else _] |- _ => destruct b eqn:?
  end;
  repeat match goal with
  | H : _ && _ = true |- _ => apply andb_true_iff in H; destruct H
  | H : _ && _ = false |- _ => apply andb_false_iff in H; destruct H
  end;
  repeat match goal with
  | H : (_ <=? _) = true |- _ => apply Z.leb_le in H
  | H : (_ <=? _) = false |- _ => apply Z.leb_gt in H
  | H : (_ <? _) = true |- _ => apply Z.ltb_lt in H
  | H : (_ <? _) = false |- _ => apply Z.ltb_ge in H
  | H : (_ =? _) = true |- _ => apply Z.eqb_eq in H
  | H : (_ =? _) = false |- _ => apply Z.eqb_neq in H
  end;
  try reflexivity; try discriminate; try (exfalso; lia); try lia.

(** A rectangle is filled by the two innermost loops. *)
Lemma fill_rect_paints (x0 x1 y0 y1 : Z) (c : rgb) (img : pil_image) :
  0 <= x0 -> x1 <= im_width img -> 0 <= y0 -> y1 <= im_height img ->
  exists img',
    for_each (range2 y0 y1) (fun y =>
      for_each (range2 x0 x1) (fun x => putpixel x y c)) img = Ok img' /\
    paints (rect x0 x1 y0 y1 c) img img'.
Proof.
  intros Hx0 Hx1 Hy0 Hy1. unfold range2.
  destruct (for_each_invariant
    (fun b cur => paints (rect x0 x1 y0 b c) img cur)
    (fun y => for_each (zrange x0 (Z.to_nat (x1 - x0))) (fun x => putpixel x y c))
    (Z.to_nat (y1 - y0)) y0 img) as (img' & Hrun & Hfin).
  - eapply paints_ext; [|apply paints_nothing]. intros x y. unfold rect, nothing. bool_lia.
  - intros y cur Hy Hcur.
    destruct (for_each_invariant
      (fun b cur' => paints (rect x0 b y (y + 1) c) cur cur')
      (fun x => putpixel x y c) (Z.to_nat (x1 - x0)) x0 cur) as (cur' & Hrun & Hfin).
    + eapply paints_ext; [|apply paints_nothing]. intros x' y'. unfold rect, nothing. bool_lia.
    + intros x cur0 Hx Hcur0.
      destruct (putpixel_paints x y c cur0) as (cur1 & Hput & Hp).
      * destruct Hcur as [[Hw Hh] _]. destruct Hcur0 as [[Hw0 Hh0] _].
        unfold in_image. rewrite Hw0, Hh0, Hw, Hh. rewrite !andb_true_iff. lia.
      * exists cur1. split; [exact Hput|].
        eapply paints_step; [exact Hcur0|exact Hp|].
        intros x' y'. unfold rect. bool_lia.
    + exists cur'. split; [exact Hrun|].
      eapply paints_step; [exact Hcur|exact Hfin|].
      intros x' y'. unfold rect. bool_lia.
  - exists img'. split; [exact Hrun|].
    eapply paints_ext; [|exact Hfin]. intros x y. unfold rect. bool_lia.
Qed.

Lemma div_in_square (s k x : Z) : 0 < s -> k * s <= x < (k + 1) * s -> x / s = k.
Proof.
  intros Hs Hx. symmetry. apply (Z.div_unique x s k (x - k * s)); lia.
Qed.

Lemma fill_square_paints (w h s row col : Z) (img : pil_image) :
  im_width img = w -> im_height img = h ->
  0 < s -> 0 <= row -> 0 <= col ->
  exists img', fill_square w h s row col img = Ok img' /\
    paints (rect (col * s) (Z.min ((col + 1) * s) w)
                 (row * s) (Z.min ((row + 1) * s) h) (square_color row col)) img img'.
Proof.
  intros Hw Hh Hs Hrow Hcol. unfold fill_square.
  apply fill_rect_paints; nia.
Qed.

Lemma fill_band_paints (w h s row num_cols : Z) (img : pil_image) :
  im_width img = w -> im_height img = h ->
  0 < s -> 0 <= row ->
  exists img',
    for_each (range num_cols) (fun col => fill_square w h s row col) img = Ok img' /\
    paints (band w h s row (Z.max 0 num_cols)) img img'.
Proof.
  intros Hw Hh Hs Hrow. unfold range.
  destruct (for_each_invariant
    (fun b cur => paints (band w h s row b) img cur)
    (fun col => fill_square w h s row col) (Z.to_nat num_cols) 0 img)
    as (img' & Hrun & Hfin).
  - eapply paints_ext; [|apply paints_nothing]. intros x y. unfold band, nothing. bool_lia.
  - intros col cur Hc Hcur.
    destruct (fill_square_paints w h s row col cur) as (cur' & Hsq & Hp); try lia.
    + destruct Hcur as [[E _] _]. congruence.
    + destruct Hcur as [[_ E] _]. congruence.
    + exists cur'. split; [exact Hsq|].
      eapply paints_step; [exact Hcur|exact Hp|].
      intros x y. unfold rect, band.
      destruct ((col * s <=? x) && (x <? Z.min ((col + 1) * s) w)
                && (row * s <=? y) && (y <? Z.min ((row + 1) * s) h)) eqn:B.
      * rewrite !andb_true_iff in B.
        rewrite (div_in_square s col x) by lia.
        replace ((0 <=? x) && (x <? Z.min ((col + 1) * s) w)
                 && (row * s <=? y) && (y <? Z.min ((row + 1) * s) h)) with true;
          [reflexivity|].
        symmetry. rewrite !andb_true_iff. nia.
      * replace ((0 <=? x) && (x <? Z.min ((col + 1) * s) w)
                 && (row * s <=? y) && (y <? Z.min ((row + 1) * s) h))
          with ((0 <=? x) && (x <? Z.min (col * s) w)
                && (row * s <=? y) && (y <? Z.min ((row + 1) * s) h));
          [reflexivity|].
        rewrite !andb_false_iff in B.
        apply eq_true_iff_eq. rewrite !andb_true_iff. nia.
  - exists img'. split; [exact Hrun|].
    eapply paints_ext; [|exact Hfin]. intros x y. unfold band.
    replace (0 + Z.of_nat (Z.to_nat num_cols)) with (Z.max 0 num_cols) by lia.
    reflexivity.
Qed.

Lemma fill_board_paints (w h s num_rows num_cols : Z) (img : pil_image) :
  im_width img = w -> im_height img = h ->
  0 < s -> 0 <= num_cols ->
  exists img',
    for_each (range num_rows) (fun row =>
      for_each (range num_cols) (fun col => fill_square w h s row col)) img = Ok img' /\
    paints (board w h s num_cols (Z.max 0 num_rows)) img img'.
Proof.
  intros Hw Hh Hs Hnc. unfold range at 1.
  destruct (for_each_invariant
    (fun b cur => paints (board w h s num_cols b) img cur)
    (fun row => for_each (range num_cols) (fun col => fill_square w h s row col))
    (Z.to_nat num_rows) 0 img) as (img' & Hrun & Hfin).
  - eapply paints_ext; [|apply paints_nothing]. intros x y. unfold board, nothing. bool_lia.
  - intros row cur Hr Hcur.
    destruct (fill_band_paints w h s row num_cols cur) as (cur' & Hb & Hp); try lia.
    + destruct Hcur as [[E _] _]. congruence.
    + destruct Hcur as [[_ E] _]. congruence.
    + exists cur'. split; [exact Hb|].
      eapply paints_step; [exact Hcur|exact Hp|].
      intros x y. unfold band, board. rewrite Z.max_r by lia.
      destruct ((0 <=? x) && (x <? Z.min (num_cols * s) w)
                && (row * s <=? y) && (y <? Z.min ((row + 1) * s) h)) eqn:B.
      * rewrite !andb_true_iff in B.
        rewrite (div_in_square s row y) by lia.
        replace ((0 <=? x) && (x <? Z.min (num_cols * s) w)
                 && (0 <=? y) && (y <? Z.min ((row + 1) * s) h)) with true;
          [reflexivity|].
        symmetry. rewrite !andb_true_iff. nia.
      * replace ((0 <=? x) && (x <? Z.min (num_cols * s) w)
                 && (0 <=? y) && (y <? Z.min ((row + 1) * s) h))
          with ((0 <=? x) && (x <? Z.min (num_cols * s) w)
                && (0 <=? y) && (y <? Z.min (row * s) h));
          [reflexivity|].
        rewrite !andb_false_iff in B.
        apply eq_true_iff_eq. rewrite !andb_true_iff. nia.
  - exists img'. split; [exact Hrun|].
    eapply paints_ext; [|exact Hfin]. intros x y. unfold board.
    replace (0 + Z.of_nat (Z.to_nat num_rows)) with (Z.max 0 num_rows) by lia.
    reflexivity.
Qed.

Lemma even_mod2 (n : Z) : (n mod 2 =? 0) = Z.even n.
Proof. rewrite Zmod_even. destruct (Z.even n); reflexivity. Qed.

(** Every pixel of the placeholder image: the whole squares that fit are
    painted in alternation, everything else keeps the fill colour. *)
Lemma Image_new_ok (w h : Z) :
  0 <= w <= max_line_pixels -> 0 <= h <= c_int_max ->
  Image_new w h = Ok {| im_width := w; im_height := h; im_px := ∅ |}.
Proof.
  intros Hw Hh. unfold Image_new.
  assert (Hm : max_line_pixels <= c_int_max) by (vm_compute; discriminate).
  replace ((w <? 0) || (h <? 0)) with false
    by (symmetry; apply orb_false_iff; split; apply Z.ltb_ge; lia).
  replace ((c_int_max <? w) || (c_int_max <? h)) with false
    by (symmetry; apply orb_false_iff; split; apply Z.ltb_ge; lia).
  replace (max_line_pixels <? w) with false by (symmetry; apply Z.ltb_ge; lia).
  reflexivity.
Qed.

Lemma placeholder_image_pixels (h w : Z) :
  16 <= Z.min w h -> w <= max_line_pixels -> h <= c_int_max ->
  let s := Z.min w h / 16 in
  exists img, placeholder_image h w = Ok img /\
    im_width img = w /\ im_height img = h /\
    forall x y, getpixel img x y =
      if (0 <=? x) && (x <? w / s * s) && (0 <=? y) && (y <? h / s * s)
      then square_color (y / s) (x / s) else black.
Proof.
  intros Hmin Hwmax Hhmax s.
  assert (Hs : 0 < s) by (apply Z.div_str_pos; lia).
  assert (Hnc : 0 <= w / s) by (apply Z.div_pos; lia).
  assert (Hnr : 0 <= h / s) by (apply Z.div_pos; lia).
  assert (Hcw : w / s * s <= w) by (rewrite Z.mul_comm; apply Z.mul_div_le; lia).
  assert (Hrh : h / s * s <= h) by (rewrite Z.mul_comm; apply Z.mul_div_le; lia).
  unfold placeholder_image.
  rewrite Image_new_ok by lia.
  unfold square_size, floordiv, target_squares_per_dim.
  simpl. fold s.
  replace (s =? 0) with false by (symmetry; apply Z.eqb_neq; lia).
  simpl.
  destruct (fill_board_paints w h s (h / s) (w / s)
              {| im_width := w; im_height := h; im_px := ∅ |})
    as (img & Hrun & [[Ew Eh] Hp]); try reflexivity; try lia.
  exists img. split; [exact Hrun|]. split; [exact Ew|]. split; [exact Eh|].
  intros x y. rewrite Hp. unfold board, getpixel at 1. simpl.
  rewrite lookup_empty. simpl.
  rewrite (Z.max_r 0 (h / s)) by lia.
  rewrite (Z.min_l (w / s * s) w) by lia.
  rewrite (Z.min_l (h / s * s) h) by lia.
  destruct ((0 <=? x) && (x <? w / s * s) && (0 <=? y) && (y <? h / s * s));
    reflexivity.
Qed.

Lemma pil_to_bhwc_shape (img : pil_image) :
  t_shape (pil_to_bhwc img) = [1; im_height img; im_width img; 3].
Proof. reflexivity. Qed.

Lemma pil_to_bhwc_at (img : pil_image) (y x c : Z) :
  t_at (pil_to_bhwc img) [0; y; x; c] = Qmake (channel c (getpixel img x y)) 255.
Proof. reflexivity. Qed.

(** The closed form of the placeholder tensor. *)
Lemma placeholder_frame_elements (cfg : InfiniteFlux2Config) :
  16 <= Z.min (width cfg) (height cfg) ->
  width cfg <= max_line_pixels -> height cfg <= c_int_max ->
  let h := height cfg in
  let w := width cfg in
  let s := Z.min w h / 16 in
  exists t, create_placeholder_frame cfg = Ok t /\
    t_shape t = [1; h; w; 3] /\
    forall y x c, 0 <= y < h -> 0 <= x < w -> 0 <= c < 3 ->
      t_at t [0; y; x; c] =
        if (y <? h / s * s) && (x <? w / s * s) && negb (Z.even (y / s + x / s))
        then Qmake 255 255 else Qmake 0 255.
Proof.
  intros Hmin Hwmax Hhmax h w s.
  destruct (placeholder_image_pixels h w Hmin Hwmax Hhmax)
    as (img & Himg & Ew & Eh & Hpx).
  unfold create_placeholder_frame. fold h w. rewrite Himg. simpl.
  eexists. split; [reflexivity|]. split.
  - rewrite pil_to_bhwc_shape, Ew, Eh. reflexivity.
  - intros y x c Hy Hx Hc. rewrite pil_to_bhwc_at, Hpx. fold s.
    replace (0 <=? x) with true by (symmetry; apply Z.leb_le; lia).
    replace (0 <=? y) with true by (symmetry; apply Z.leb_le; lia).
    unfold square_color. rewrite even_mod2.
    destruct (y <? h / s * s), (x <? w / s * s), (Z.even (y / s + x / s));
      unfold channel, black, white; destruct (c =? 0), (c =? 1); reflexivity.
Qed.

(** ** Placeholder generator: claims *)

(** C9 (as stated, refuted).  If every pixel followed the alternation of
    its grid position, the pixel at [x = 2], [y = 32] of the 33 x 32
    placeholder (grid row 16, grid column 1) would be white.  It lies in the
    strip below the last whole square and is black. *)
Lemma placeholder_not_clipped_checkerboard :
  ~ (forall cfg t,
       16 <= Z.min (width cfg) (height cfg) ->
       create_placeholder_frame cfg = Ok t ->
       let s := Z.min (width cfg) (height cfg) / 16 in
       forall y x c, 0 <= y < height cfg -> 0 <= x < width cfg -> 0 <= c < 3 ->
         t_at t [0; y; x; c] =
           if Z.even (y / s + x / s) then Qmake 0 255 else Qmake 255 255).
Proof.
  intros claim.
  destruct (placeholder_frame_elements (cfg_sized 33 32)) as (t & Ht & _ & Hel);
    [vm_compute; discriminate ..|].
  specialize (claim (cfg_sized 33 32) t).
  assert (H := claim ltac:(vm_compute; discriminate) Ht 32 2 0
                 ltac:(vm_compute; intuition discriminate)
                 ltac:(vm_compute; intuition discriminate)
                 ltac:(lia)).
  rewrite (Hel 32 2 0) in H by (vm_compute; intuition discriminate).
  vm_compute in H. discriminate H.
Qed.

(** C9 (amended).  For dimensions with [min(height, width) >= 16] that
    the image allocation takes (height at most [2^31 - 1], width at most
    [(2^31 - 1) // 4 - 1]) the
    placeholder is a function of [(height, width)] alone; it is a tensor of
    shape [[1, height, width, 3]] with values in [[0, 1]]; with
    [s = min(width, height) // 16], the pixel at [(x, y)] inside the
    [height // s] by [width // s] whole squares that fit is black exactly
    when [y // s + x // s] is even and white otherwise, and every pixel of
    the strips beyond the last whole square is black. *)
Theorem placeholder_whole_squares_checkerboard (cfg : InfiniteFlux2Config) :
  16 <= Z.min (width cfg) (height cfg) ->
  width cfg <= max_line_pixels -> height cfg <= c_int_max ->
  let h := height cfg in
  let w := width cfg in
  let s := Z.min w h / 16 in
  exists t, create_placeholder_frame cfg = Ok t /\
    t_shape t = [1; h; w; 3] /\
    (forall y x c, 0 <= y < h -> 0 <= x < w -> 0 <= c < 3 ->
       t_at t [0; y; x; c] =
         (if (y <? h / s * s) && (x <? w / s * s) && negb (Z.even (y / s + x / s))
          then Qmake 255 255 else Qmake 0 255) /\
       in_unit_interval (t_at t [0; y; x; c])) /\
    (forall cfg', height cfg' = h -> width cfg' = w ->
       create_placeholder_frame cfg' = Ok t).
Proof.
  intros Hmin Hwmax Hhmax h w s.
  destruct (placeholder_frame_elements cfg Hmin Hwmax Hhmax) as (t & Ht & Hshape & Hel).
  exists t. split; [exact Ht|]. split; [exact Hshape|]. split.
  - intros y x c Hy Hx Hc. split; [apply Hel; assumption|].
    rewrite (Hel y x c Hy Hx Hc).
    destruct ((y <? height cfg / (Z.min (width cfg) (height cfg) / 16)
                    * (Z.min (width cfg) (height cfg) / 16))
              && (x <? width cfg / (Z.min (width cfg) (height cfg) / 16)
                       * (Z.min (width cfg) (height cfg) / 16))
              && negb (Z.even (y / (Z.min (width cfg) (height cfg) / 16)
                               + x / (Z.min (width cfg) (height cfg) / 16))));
      split; vm_compute; discriminate.
  - intros cfg' Eh Ew. rewrite <- Ht. unfold create_placeholder_frame.
    rewrite Eh, Ew. reflexivity.
Qed.

Lemma placeholder_whole_squares_checkerboard_witness :
  16 <= Z.min (width default_cfg) (height default_cfg) /\
  width default_cfg <= max_line_pixels /\ height default_cfg <= c_int_max /\
  exists t, create_placeholder_frame default_cfg = Ok t /\
    t_shape t = [1; 1024; 1024; 3] /\
    t_at t [0; 0; 64; 0] = Qmake 255 255.
Proof.
  assert (Hmin : 16 <= Z.min (width default_cfg) (height default_cfg))
    by (vm_compute; discriminate).
  assert (Hwmax : width default_cfg <= max_line_pixels) by (vm_compute; discriminate).
  assert (Hhmax : height default_cfg <= c_int_max) by (vm_compute; discriminate).
  split; [exact Hmin|]. split; [exact Hwmax|]. split; [exact Hhmax|].
  destruct (placeholder_whole_squares_checkerboard default_cfg Hmin Hwmax Hhmax)
    as (t & Ht & Hshape & Hel & _).
  exists t. split; [exact Ht|]. split; [exact Hshape|].
  destruct (Hel 0 64 0) as [E _]; [vm_compute; intuition discriminate ..|].
  rewrite E. reflexivity.
Defined.

(** C10 (as stated, refuted).  With height -5 and width 1024 the smaller
    dimension is below 16, but the square size is -1, not 0, and creation
    ends in the value error of the image allocation, not in a division by
    zero. *)
Lemma negative_dimension_no_zero_division :
  Z.min (width (cfg_sized (-5) 1024)) (height (cfg_sized (-5) 1024)) < 16 /\
  square_size 1024 (-5) = Ok (-1) /\
  create_placeholder_frame (cfg_sized (-5) 1024) = Raise ValueError.
Proof. split; [vm_compute; reflexivity|]. split; reflexivity. Qed.

Lemma placeholder_zero_square (cfg : InfiniteFlux2Config) :
  0 <= height cfg <= c_int_max -> 0 <= width cfg <= max_line_pixels ->
  Z.min (width cfg) (height cfg) < 16 ->
  square_size (width cfg) (height cfg) = Ok 0 /\
  create_placeholder_frame cfg = Raise ZeroDivisionError.
Proof.
  intros Hh Hw Hmin.
  assert (Hs : Z.min (width cfg) (height cfg) / 16 = 0) by (apply Z.div_small; lia).
  unfold create_placeholder_frame, placeholder_image.
  rewrite Image_new_ok by assumption.
  unfold square_size, floordiv, target_squares_per_dim.
  rewrite Hs. split; reflexivity.
Qed.

(** The sizes the image allocation refuses, in the order of its checks. *)
Lemma placeholder_size_refused (cfg : InfiniteFlux2Config) :
  (height cfg < 0 \/ width cfg < 0 ->
     create_placeholder_frame cfg = Raise ValueError) /\
  (0 <= height cfg -> 0 <= width cfg ->
   c_int_max < height cfg \/ c_int_max < width cfg ->
     create_placeholder_frame cfg = Raise OverflowError) /\
  (0 <= height cfg <= c_int_max -> max_line_pixels < width cfg <= c_int_max ->
     create_placeholder_frame cfg = Raise MemoryError).
Proof.
  unfold create_placeholder_frame, placeholder_image, Image_new.
  split; [|split].
  - intros Hneg.
    replace ((width cfg <? 0) || (height cfg <? 0)) with true; [reflexivity|].
    symmetry. apply orb_true_iff. destruct Hneg; [right|left]; apply Z.ltb_lt; lia.
  - intros Hh Hw Hbig.
    replace ((width cfg <? 0) || (height cfg <? 0)) with false
      by (symmetry; apply orb_false_iff; split; apply Z.ltb_ge; lia).
    replace ((c_int_max <? width cfg) || (c_int_max <? height cfg)) with true;
      [reflexivity|].
    symmetry. apply orb_true_iff. destruct Hbig; [right|left]; apply Z.ltb_lt; lia.
  - intros Hh Hw.
    replace ((width cfg <? 0) || (height cfg <? 0)) with false
      by (symmetry; apply orb_false_iff; split; apply Z.ltb_ge;
          [assert (0 <= max_line_pixels) by (vm_compute; discriminate)|]; lia).
    replace ((c_int_max <? width cfg) || (c_int_max <? height cfg)) with false
      by (symmetry; apply orb_false_iff; split; apply Z.ltb_ge; lia).
    replace (max_line_pixels <? width cfg) with true
      by (symmetry; apply Z.ltb_lt; lia).
    reflexivity.
Qed.

(** C10 (amended).  For dimensions that the image allocation takes
    (height between 0 and [2^31 - 1], width between 0 and
    [(2^31 - 1) // 4 - 1]): with [min(height, width) < 16] the square size
    is 0, placeholder creation raises a division by zero and [on_start]
    fails with it without spawning its tasks; with
    [min(height, width) >= 16] placeholder creation succeeds.  Outside
    these dimensions the allocation fails before any division: a negative
    side ends in its value error, a side from [2^31] on in an overflow
    error, and a wider line in a memory error. *)
Theorem placeholder_defined_from_16 (c : InfiniteFlux2Config) :
  (0 <= height c <= c_int_max -> 0 <= width c <= max_line_pixels ->
   Z.min (width c) (height c) < 16 ->
     square_size (width c) (height c) = Ok 0 /\
     create_placeholder_frame c = Raise ZeroDivisionError /\
     forall w params,
       runner_ready (self w) = true ->
       update_params params (cfg (self w)) = (c, Ok tt) ->
       surfaced (on_start params w) = surfaced w ++ [ZeroDivisionError] /\
       tasks (on_start params w) = tasks w /\
       current_frame (self (on_start params w)) = current_frame (self w)) /\
  (16 <= Z.min (width c) (height c) ->
   width c <= max_line_pixels -> height c <= c_int_max ->
     exists t, create_placeholder_frame c = Ok t) /\
  (height c < 0 \/ width c < 0 -> create_placeholder_frame c = Raise ValueError) /\
  (0 <= height c -> 0 <= width c -> c_int_max < height c \/ c_int_max < width c ->
     create_placeholder_frame c = Raise OverflowError) /\
  (0 <= height c <= c_int_max -> max_line_pixels < width c <= c_int_max ->
     create_placeholder_frame c = Raise MemoryError).
Proof.
  destruct (placeholder_size_refused c) as (Hneg & Hbig & Hwide).
  split; [|split; [|split; [exact Hneg|split; [exact Hbig|exact Hwide]]]].
  - intros Hh Hw Hmin.
    destruct (placeholder_zero_square c Hh Hw Hmin) as [Hs Hc].
    split; [exact Hs|]. split; [exact Hc|].
    intros w params Hready Hupd. unfold on_start, call_update_params. simpl.
    rewrite Hready. simpl. rewrite Hupd. simpl. rewrite Hc.
    repeat split; reflexivity.
  - intros Hmin Hwmax Hhmax.
    destruct (placeholder_frame_elements c Hmin Hwmax Hhmax) as (t & Ht & _).
    exists t. exact Ht.
Qed.

Lemma placeholder_defined_from_16_witness :
  (square_size (width (cfg_sized 8 1024)) (height (cfg_sized 8 1024)) = Ok 0 /\
   create_placeholder_frame (cfg_sized 8 1024) = Raise ZeroDivisionError) /\
  (exists t, create_placeholder_frame default_cfg = Ok t) /\
  create_placeholder_frame (cfg_sized 8 (2 ^ 31)) = Raise OverflowError /\
  create_placeholder_frame (cfg_sized (2 ^ 31) 16) = Raise OverflowError /\
  create_placeholder_frame (cfg_sized 16 (2 ^ 30)) = Raise MemoryError.
Proof.
  split; [|split; [|split; [|split]]].
  - destruct (placeholder_defined_from_16 (cfg_sized 8 1024)) as [H _].
    destruct H as (Hs & Hc & _);
      [vm_compute; intuition discriminate ..|reflexivity|].
    split; [exact Hs|exact Hc].
  - destruct (placeholder_defined_from_16 default_cfg) as (_ & H & _).
    apply H; vm_compute; discriminate.
  - destruct (placeholder_defined_from_16 (cfg_sized 8 (2 ^ 31)))
      as (_ & _ & _ & H & _).
    apply H; [vm_compute; discriminate ..|right; vm_compute; reflexivity].
  - destruct (placeholder_defined_from_16 (cfg_sized (2 ^ 31) 16))
      as (_ & _ & _ & H & _).
    apply H; [vm_compute; discriminate ..|left; vm_compute; reflexivity].
  - destruct (placeholder_defined_from_16 (cfg_sized 16 (2 ^ 30)))
      as (_ & _ & _ & _ & H).
    apply H; vm_compute; intuition discriminate.
Defined.

(** ** Configuration store *)

Ltac case_result :=
  match goal with
  | |- context [match ?r with Ok _ => _ | Raise _ => _ end] => destruct r eqn:?
  | H : context [match ?r with Ok _ => _ | Raise _ => _ end] |- _ => destruct r eqn:?
  end.

Ltac unfold_stmt :=
  unfold mbind, stmt_bind, mret, stmt_ret, eval, attr, assign in *.

(** [update_params] is its ten assignments in sequence. *)
Lemma update_params_run_fields (d : gmap string pyval) (c : InfiniteFlux2Config) :
  update_params d c = run_fields (request_body d) field_order c.
Proof.
  unfold update_params, field_order, run_fields, assign_field. unfold_stmt.
  repeat (case_result; simpl); reflexivity.
Qed.

Lemma assign_field_raise p f c c' e :
  assign_field p f c = (c', Raise e) -> c' = c.
Proof.
  destruct f; unfold assign_field; unfold_stmt; intros H;
    repeat (case_result; simpl in * ); congruence.
Qed.

Lemma assign_field_other p f g c c' r :
  assign_field p f c = (c', r) -> g <> f -> read_field g c' = read_field g c.
Proof.
  intros H Hne.
  destruct f; unfold assign_field in H; unfold_stmt;
    repeat (case_result; simpl in * );
    inversion H; subst; destruct g; try reflexivity; congruence.
Qed.

Lemma assign_field_depends p f c1 c2 :
  read_field f c1 = read_field f c2 ->
  snd (assign_field p f c1) = snd (assign_field p f c2) /\
  read_field f (fst (assign_field p f c1)) = read_field f (fst (assign_field p f c2)).
Proof.
  intros E.
  destruct f; simpl in E; inversion E as [E'];
    unfold assign_field; unfold_stmt; try rewrite E';
    repeat (case_result; simpl in * ).
  all: try (split; congruence).
  all: simpl; split; reflexivity.
Qed.

Lemma run_fields_untouched p fs : forall c c' r g,
  run_fields p fs c = (c', r) -> g ∉ fs -> read_field g c' = read_field g c.
Proof.
  induction fs as [|f fs IH]; intros c c' r g H Hg.
  - inversion H. reflexivity.
  - simpl in H. unfold mbind, stmt_bind in H.
    destruct (assign_field p f c) as [c1 [[]|e1]] eqn:Ef.
    + rewrite (IH c1 c' r g H) by (intros Hin; apply Hg; right; exact Hin).
      eapply assign_field_other; [exact Ef|].
      intros ->. apply Hg. left.
    + inversion H; subst.
      eapply assign_field_other; [exact Ef|].
      intros ->. apply Hg. left.
Qed.

(** A failed sequence of assignments: the assignments before the failing
    one took effect, the failing one and the later ones did not. *)
Lemma run_fields_raise p fs : forall c c' e,
  NoDup fs ->
  run_fields p fs c = (c', Raise e) ->
  exists done failing rest,
    fs = done ++ failing :: rest /\
    (forall f, f ∈ done ->
       exists cf, assign_field p f c = (cf, Ok tt) /\ read_field f c' = read_field f cf) /\
    assign_field p failing c = (c, Raise e) /\
    (forall f, f ∈ failing :: rest -> read_field f c' = read_field f c).
Proof.
  induction fs as [|f fs IH]; intros c c' e Hnd H.
  - discriminate H.
  - apply NoDup_cons in Hnd as [Hf Hnd].
    simpl in H. unfold mbind, stmt_bind in H.
    destruct (assign_field p f c) as [c1 [[]|e1]] eqn:Ef.
    + destruct (IH c1 c' e Hnd H) as (done & failing & rest & -> & Hdone & Hfail & Hrest).
      assert (Hsame : forall g, g ∈ done ++ failing :: rest ->
                read_field g c1 = read_field g c).
      { intros g Hg. eapply assign_field_other; [exact Ef|].
        intros ->. exact (Hf Hg). }
      exists (f :: done), failing, rest. split; [reflexivity|]. split; [|split].
      * intros g Hg. apply elem_of_cons in Hg as [->|Hg].
        -- exists c1. split; [exact Ef|].
           eapply run_fields_untouched; [exact H|exact Hf].
        -- destruct (Hdone g Hg) as (cf & Hcf & Hread).
           destruct (assign_field_depends p g c1 c)
             as [Hres Hval]; [apply Hsame, elem_of_app; left; exact Hg|].
           rewrite Hcf in Hres, Hval. simpl in Hres, Hval.
           destruct (assign_field p g c) as [cf' r'] eqn:Eg. simpl in Hres, Hval.
           subst r'. exists cf'. split; [reflexivity|]. congruence.
      * destruct (assign_field_depends p failing c1 c)
          as [Hres _]; [apply Hsame, elem_of_app; right; left|].
        rewrite Hfail in Hres. simpl in Hres.
        destruct (assign_field p failing c) as [c2 r2] eqn:E2. simpl in Hres. subst r2.
        rewrite (assign_field_raise _ _ _ _ _ E2). reflexivity.
      * intros g Hg. rewrite (Hrest g Hg).
        apply Hsame, elem_of_app. right. exact Hg.
    + inversion H; subst.
      assert (c' = c) by (eapply assign_field_raise; exact Ef). subst c'.
      exists [], f, fs. split; [reflexivity|]. split; [|split].
      * intros g Hg. apply elem_of_nil in Hg. destruct Hg.
      * exact Ef.
      * intros g _. reflexivity.
Qed.

Lemma field_order_NoDup : NoDup field_order.
Proof.
  unfold field_order.
  repeat (apply NoDup_cons_2;
          [rewrite ?elem_of_cons, ?elem_of_nil; intuition discriminate|]).
  apply NoDup_nil_2.
Qed.

Lemma py_int_PInt z : py_int (PInt z) = Ok z.
Proof. reflexivity. Qed.

Lemma py_float_PFloat f : py_float (PFloat f) = Ok f.
Proof. reflexivity. Qed.

(** What an accepted request does to the fields it does not name; the
    derived field is cleared in any case. *)
Lemma update_params_absent_keys (d : gmap string pyval) (c c' : InfiniteFlux2Config) :
  d !! "params" = None ->
  update_params d c = (c', Ok tt) ->
  (d !! "height" = None -> height c' = height c) /\
  (d !! "width" = None -> width c' = width c) /\
  (d !! "prompt" = None -> prompt c' = prompt c) /\
  (d !! "steps" = None -> steps c' = steps c) /\
  (d !! "guidance_scale" = None -> guidance_scale c' = guidance_scale c) /\
  (d !! "seed" = None -> seed c' = seed c) /\
  (d !! "seed_adjustment" = None -> seed_adjustment c' = seed_adjustment c) /\
  (d !! "enhance_guidance" = None -> enhance_guidance c' = enhance_guidance c) /\
  (d !! "enhance_prompt" = None -> enhance_prompt c' = false) /\
  reference_images c' = reference_images c /\
  prompt_guidance_doc c' = prompt_guidance_doc c /\
  processed_reference_images c' = None.
Proof.
  intros Hp H. unfold update_params, request_body in H. rewrite Hp in H.
  unfold_stmt. unfold params_get in H. simpl in H.
  repeat (case_result; simpl in H; try discriminate H).
  inversion H; subst; clear H. simpl.
  repeat split; try reflexivity; intros Hk; rewrite Hk in *; simpl in *;
    try congruence.
  vm_compute in Heqr4. injection Heqr4 as <-. reflexivity.
Qed.

(** C6 (the code departs from the claim).  An accepted request that does
    not name [enhance_prompt] does not keep the previous value of that
    field: it is false afterwards, whatever it was.  (The other eight
    fields keep their value when absent and the derived field is cleared:
    [update_params_absent_keys].) *)
Theorem update_params_absent_enhance_prompt_reset
    (d : gmap string pyval) (c c' : InfiniteFlux2Config) :
  d !! "params" = None ->
  d !! "enhance_prompt" = None ->
  update_params d c = (c', Ok tt) ->
  enhance_prompt c' = false.
Proof.
  intros Hp Hk H.
  destruct (update_params_absent_keys d c c' Hp H)
    as (_ & _ & _ & _ & _ & _ & _ & _ & He & _).
  exact (He Hk).
Qed.

Lemma update_params_absent_enhance_prompt_reset_witness :
  enhance_prompt (set_enhance_prompt true default_cfg) = true /\
  enhance_prompt (fst (update_params request_height_only
                         (set_enhance_prompt true default_cfg))) = false.
Proof.
  split; [reflexivity|].
  apply (update_params_absent_enhance_prompt_reset request_height_only
           (set_enhance_prompt true default_cfg)).
  - reflexivity.
  - reflexivity.
  - reflexivity.
Defined.

(** C7 (as stated, refuted).  The request [{height: "512", width: "abc"}]
    is rejected with a value error, yet the height, listed before the
    malformed width, has changed from 1024 to 512. *)
Lemma update_params_failure_not_atomic :
  snd (update_params request_bad_width default_cfg) = Raise ValueError /\
  height default_cfg = 1024 /\
  height (fst (update_params request_bad_width default_cfg)) = 512.
Proof. repeat split; reflexivity. Qed.

(** C7 (amended).  A request with a malformed value makes [update_params]
    raise at the first assignment whose coercion fails, in the order
    height, width, prompt, steps, guidance_scale, seed, seed_adjustment,
    enhance_prompt, enhance_guidance: the fields assigned before it hold
    their newly assigned values, the failing field and every field after it
    (the derived processed-reference-images field included) hold their
    previous values. *)
Theorem update_params_failure_keeps_assigned_prefix
    (d : gmap string pyval) (c c' : InfiniteFlux2Config) (e : exn) :
  update_params d c = (c', Raise e) ->
  exists done failing rest,
    field_order = done ++ failing :: rest /\
    (forall f, f ∈ done ->
       exists cf, assign_field (request_body d) f c = (cf, Ok tt) /\
                  read_field f c' = read_field f cf) /\
    assign_field (request_body d) failing c = (c, Raise e) /\
    (forall f, f ∈ failing :: rest -> read_field f c' = read_field f c).
Proof.
  intros H. rewrite update_params_run_fields in H.
  exact (run_fields_raise _ _ _ _ _ field_order_NoDup H).
Qed.

Lemma update_params_failure_keeps_assigned_prefix_witness :
  update_params request_bad_width default_cfg
    = (set_height 512 default_cfg, Raise ValueError) /\
  exists done failing rest,
    field_order = done ++ failing :: rest /\
    (forall f, f ∈ done ->
       exists cf, assign_field (request_body request_bad_width) f default_cfg
                    = (cf, Ok tt) /\
                  read_field f (set_height 512 default_cfg) = read_field f cf) /\
    assign_field (request_body request_bad_width) failing default_cfg
      = (default_cfg, Raise ValueError) /\
    (forall f, f ∈ failing :: rest ->
       read_field f (set_height 512 default_cfg) = read_field f default_cfg).
Proof.
  split; [reflexivity|].
  apply (update_params_failure_keeps_assigned_prefix request_bad_width default_cfg
           (set_height 512 default_cfg) ValueError).
  reflexivity.
Defined.

(** ** Interleavings: basic facts *)

Lemma run_cons w e tr : run w (e :: tr) = run (step w e) tr.
Proof. reflexivity. Qed.

Lemma run_app w tr1 tr2 : run w (tr1 ++ tr2) = run (run w tr1) tr2.
Proof. unfold run. apply fold_left_app. Qed.

Lemma run_snoc w tr e : run w (tr ++ [e]) = step (run w tr) e.
Proof. rewrite run_app. reflexivity. Qed.

Lemma set_inference_lock_id h : set_inference_lock (inference_lock h) h = h.
Proof. destruct h; reflexivity. Qed.

(** Cancelling tasks touches the task table and the lock, nothing else. *)
Lemma cancel_tasks_frame (l : list nat) : forall w,
  let w' := fold_left cancel_task l w in
  (exists b, self w' = set_inference_lock b (self w)) /\
  jobs w' = jobs w /\ sent w' = sent w /\ surfaced w' = surfaced w /\
  warnings w' = warnings w /\ stops_waiting w' = stops_waiting w /\
  next_task w' = next_task w /\ next_job w' = next_job w.
Proof.
  induction l as [|t l IH]; intros w; simpl.
  - split; [exists (inference_lock (self w)); symmetry; apply set_inference_lock_id|].
    repeat split.
  - destruct (IH (cancel_task w t)) as ([b Hb] & Hj & Hs & Hsu & Hw & Hst & Hnt & Hnj).
    rewrite Hb, Hj, Hs, Hsu, Hw, Hst, Hnt, Hnj.
    unfold cancel_task. repeat case_match; simpl; (split; [|repeat split]);
      solve [exists b; reflexivity].
Qed.

Lemma cancel_tasks_gone (l : list nat) : forall w t,
  t ∈ l -> tasks (fold_left cancel_task l w) !! t = None.
Proof.
  assert (Hkeep : forall l w t, tasks w !! t = None ->
            tasks (fold_left cancel_task l w) !! t = None).
  { clear. induction l as [|u l IH]; intros w t Hn; simpl; [exact Hn|].
    apply IH. unfold cancel_task. repeat case_match; simpl; try exact Hn;
      (destruct (decide (u = t)) as [->|Hne];
        [apply lookup_delete_eq | rewrite lookup_delete_ne by exact Hne; exact Hn]). }
  induction l as [|u l IH]; intros w t Hin; [apply elem_of_nil in Hin; destruct Hin|].
  simpl. apply elem_of_cons in Hin as [->|Hin]; [|apply IH; exact Hin].
  apply Hkeep. unfold cancel_task. repeat case_match; simpl;
    try apply lookup_delete_eq; assumption.
Qed.

Lemma teardown_torn_down w : torn_down w (teardown w).
Proof.
  unfold torn_down, teardown. simpl.
  split; [reflexivity|]. split; [reflexivity|]. split.
  - destruct (cancel_tasks_frame (background_tasks (self w))
                (upd_self (set_frame_queue []) w)) as ([b Hb] & _).
    rewrite Hb. reflexivity.
  - intros t Ht. apply cancel_tasks_gone. exact Ht.
Qed.

Lemma teardown_frame w :
  let w' := teardown w in
  cfg (self w') = cfg (self w) /\
  current_frame (self w') = current_frame (self w) /\
  placeholder_frame (self w') = placeholder_frame (self w) /\
  frame_timestamp (self w') = frame_timestamp (self w) /\
  timestamp_increment (self w') = timestamp_increment (self w) /\
  processor (self w') = processor (self w) /\
  no_audio_in_stream (self w') = no_audio_in_stream (self w) /\
  interrupt_requested (self w') = interrupt_requested (self w) /\
  inference_in_progress (self w') = inference_in_progress (self w) /\
  runner_ready (self w') = runner_ready (self w) /\
  jobs w' = jobs w /\ sent w' = sent w /\ surfaced w' = surfaced w /\
  warnings w' = warnings w /\ stops_waiting w' = stops_waiting w /\
  next_task w' = next_task w /\ next_job w' = next_job w.
Proof.
  unfold teardown. simpl.
  destruct (cancel_tasks_frame (background_tasks (self w))
              (upd_self (set_frame_queue []) w))
    as ([b Hb] & Hj & Hs & Hsu & Hw & Hst & Hnt & Hnj).
  rewrite Hb. simpl. repeat split; assumption.
Qed.
Lemma on_load_ok (w : world) (doc : string) (ph : tensor) :
  create_placeholder_frame (set_prompt_guidance_doc doc (cfg (self w))) = Ok ph ->
  on_load doc true w =
    upd_self (set_runner_ready true)
      (upd_self (set_placeholder_frame (Some ph))
         (upd_self (upd_cfg (set_prompt_guidance_doc doc)) w)).
Proof.
  intros H. unfold on_load.
  change (cfg (self (upd_self (upd_cfg (set_prompt_guidance_doc doc)) w)))
    with (set_prompt_guidance_doc doc (cfg (self w))).
  cbv zeta.
  change (cfg (self (upd_self (upd_cfg (set_prompt_guidance_doc doc)) w)))
    with (set_prompt_guidance_doc doc (cfg (self w))).
  rewrite H. reflexivity.
Qed.

Lemma load_default (doc : string) :
  exists ph, step initial_world (EvLoad doc true) = loaded_world doc ph.
Proof.
  destruct (placeholder_frame_elements (set_prompt_guidance_doc doc default_cfg))
    as (ph & Hph & _); [vm_compute; discriminate ..|].
  exists ph. exact (on_load_ok initial_world doc ph Hph).
Qed.

(** ** Frame emission loop *)

(** Only [on_start] and the emission loop touch the timing state and the
    sink. *)
Lemma step_timing_frame (w : world) (e : event) :
  is_start e = false -> is_send_tick e = false ->
  timing_view (step w e) = timing_view w.
Proof.
  intros Hs Ht. unfold timing_view.
  destruct e; try discriminate; simpl.
  - (* load *) unfold on_load. repeat case_match; reflexivity.
  - (* update *) unfold on_update, call_update_params.
    repeat case_match; simplify_eq; reflexivity.
  - (* stop *) unfold on_stop. case_match; [reflexivity|].
    destruct (teardown_frame (upd_self (set_interrupt_requested true) w))
      as (_ & _ & _ & -> & -> & -> & -> & _ & _ & _ & _ & -> & _).
    reflexivity.
  - (* stop resumes *) unfold on_stop_resume. case_match; [reflexivity|].
    match goal with |- context [teardown ?x] =>
      destruct (teardown_frame x) as (_ & _ & _ & -> & -> & -> & -> & _ & _ & _ & _ & -> & _)
    end.
    reflexivity.
  - unfold gen_loop_top, enter_lock. repeat case_match; reflexivity.
  - unfold enter_lock. repeat case_match; reflexivity.
  - unfold gen_job_done. repeat case_match; reflexivity.
  - repeat case_match; reflexivity.
  - unfold job_start. repeat case_match; reflexivity.
  - unfold job_call. repeat case_match; reflexivity.
  - unfold interrupt_callback. repeat case_match; reflexivity.
  - unfold job_finish. repeat case_match; reflexivity.
Qed.

Lemma cadence_S delta n :
  cadence delta (S n) =
    cadence delta n ++ [(Video, Z.of_nat n * delta); (Audio, Z.of_nat n * delta)].
Proof.
  unfold cadence. rewrite seq_S, flat_map_app. simpl. reflexivity.
Qed.

Lemma emitting_step base w e :
  is_start e = false -> emitting base w -> emitting base (step w e).
Proof.
  intros Hs (Hp & Ha & Hi & n & frames & Hts & Hsent & Hst & Htb).
  destruct (is_send_tick e) eqn:Ht.
  - destruct e; try discriminate. simpl.
    destruct (tasks w !! t) as [[|]|];
      try (split; [exact Hp|]; split; [exact Ha|]; split; [exact Hi|];
           exists n, frames; repeat split; assumption).
    unfold send_tick. rewrite Hp, Ha. simpl.
    destruct stop_event; simpl.
    + split; [exact Hp|]. split; [exact Ha|]. split; [exact Hi|].
      exists n, frames. repeat split; assumption.
    + split; [exact Hp|]. split; [exact Ha|]. split; [exact Hi|].
      exists (S n),
        (frames ++ [VideoFrame (current_frame (self w)) (frame_timestamp (self w))
                      time_base_frac;
                    AudioFrame silent_audio_shape (frame_timestamp (self w))
                      time_base_frac]).
      split; [simpl; rewrite Hts, Hi, Nat2Z.inj_succ; ring|]. split; [|split].
      * rewrite Hsent, <- !app_assoc. reflexivity.
      * rewrite fmap_app, Hst, cadence_S. simpl. rewrite Hts. reflexivity.
      * apply Forall_app. split; [exact Htb|]. repeat constructor.
  - pose proof (step_timing_frame w e Hs Ht) as Hv. unfold timing_view in Hv.
    injection Hv as E1 E2 E3 E4 E5.
    unfold emitting. rewrite E1, E2, E3, E4, E5.
    split; [exact Hp|]. split; [exact Ha|]. split; [exact Hi|].
    exists n, frames. repeat split; assumption.
Qed.

Lemma emitting_run base trace : forall w,
  Forall (fun e => is_start e = false) trace ->
  emitting base w -> emitting base (run w trace).
Proof.
  induction trace as [|e trace IH]; intros w Hall Hw; [exact Hw|].
  apply Forall_cons in Hall as [He Hall].
  rewrite run_cons. apply IH; [exact Hall|].
  apply emitting_step; assumption.
Qed.

(** A start that returns normally resets the timing state. *)
Lemma on_start_emitting w params :
  processor (self w) = true ->
  no_audio_in_stream (self w) = true ->
  surfaced (on_start params w) = surfaced w ->
  emitting (sent w) (on_start params w) /\
  frame_timestamp (self (on_start params w)) = 0.
Proof.
  intros Hp Ha Hok. unfold on_start, call_update_params in *.
  simpl in *.
  destruct (negb (runner_ready (self w))).
  { simpl in Hok. exfalso. revert Hok. clear.
    intros H. apply (f_equal length) in H. rewrite length_app in H. simpl in H. lia. }
  destruct (update_params params (cfg (self w))) as [c [[]|e]]; simpl in *.
  2:{ exfalso. apply (f_equal length) in Hok. rewrite length_app in Hok.
      simpl in Hok. lia. }
  destruct (create_placeholder_frame c) as [ph|e]; simpl in *.
  2:{ exfalso. apply (f_equal length) in Hok. rewrite length_app in Hok.
      simpl in Hok. lia. }
  split; [|reflexivity].
  split; [exact Hp|]. split; [exact Ha|]. split; [reflexivity|].
  exists 0%nat, []. simpl. rewrite app_nil_r. repeat split. constructor.
Qed.

(** ** Frame holder *)

#[local] Arguments teardown : simpl never.














(** ** Seed policy *)




(** ** The execution gate *)

Lemma cancel_task_gate (w : world) (u : nat) :
  gate_exclusive w -> gate_exclusive (cancel_task w u).
Proof.
  intros [Huniq Hlock]. unfold cancel_task.
  destruct (tasks w !! u) as [[[| |j| |]|]|] eqn:Eu;
    try (split; simpl;
         [intros t1 t2 j1 j2 H1 H2;
          apply lookup_delete_Some in H1 as [_ H1];
          apply lookup_delete_Some in H2 as [_ H2];
          exact (Huniq _ _ _ _ H1 H2)
         |intros t j' H; apply lookup_delete_Some in H as [_ H];
          exact (Hlock _ _ H)]);
    try (split; assumption).
  split; simpl.
  - intros t1 t2 j1 j2 H1 H2.
    apply lookup_delete_Some in H1 as [_ H1].
    apply lookup_delete_Some in H2 as [_ H2].
    exact (Huniq _ _ _ _ H1 H2).
  - intros t j' H. apply lookup_delete_Some in H as [Hne H].
    exfalso. apply Hne. exact (Huniq _ _ _ _ Eu H).
Qed.

Lemma cancel_tasks_gate (l : list nat) : forall w,
  gate_exclusive w -> gate_exclusive (fold_left cancel_task l w).
Proof.
  induction l as [|u l IH]; intros w Hw; simpl; [exact Hw|].
  apply IH, cancel_task_gate, Hw.
Qed.

Lemma teardown_gate (w : world) : gate_exclusive w -> gate_exclusive (teardown w).
Proof.
  intros Hw. unfold teardown.
  pose proof (cancel_tasks_gate (background_tasks (self (upd_self (set_frame_queue []) w)))
                (upd_self (set_frame_queue []) w) Hw) as H.
  exact H.
Qed.

Lemma gate_ok_insert_idle ts lock t tk :
  gate_ok ts lock -> in_thread tk = false -> gate_ok (<[t := tk]> ts) lock.
Proof.
  intros [Huniq Hlock] Htk. split.
  - intros t1 t2 j1 j2 H1 H2.
    apply lookup_insert_Some in H1 as [[_ E]|[_ H1]]; [rewrite E in Htk; discriminate|].
    apply lookup_insert_Some in H2 as [[_ E]|[_ H2]]; [rewrite E in Htk; discriminate|].
    exact (Huniq _ _ _ _ H1 H2).
  - intros t' j H.
    apply lookup_insert_Some in H as [[_ E]|[_ H]]; [rewrite E in Htk; discriminate|].
    exact (Hlock _ _ H).
Qed.

Lemma gate_ok_delete ts lock t : gate_ok ts lock -> gate_ok (delete t ts) lock.
Proof.
  intros [Huniq Hlock]. split.
  - intros t1 t2 j1 j2 H1 H2.
    apply lookup_delete_Some in H1 as [_ H1].
    apply lookup_delete_Some in H2 as [_ H2].
    exact (Huniq _ _ _ _ H1 H2).
  - intros t' j H. apply lookup_delete_Some in H as [_ H]. exact (Hlock _ _ H).
Qed.

Lemma gate_ok_enter ts t j :
  gate_ok ts false -> gate_ok (<[t := GenTask (GenInThread j)]> ts) true.
Proof.
  intros [_ Hlock]. split; [|reflexivity].
  intros t1 t2 j1 j2 H1 H2.
  apply lookup_insert_Some in H1 as [[<- _]|[_ H1]];
    [|discriminate (Hlock _ _ H1)].
  apply lookup_insert_Some in H2 as [[<- _]|[_ H2]];
    [reflexivity|discriminate (Hlock _ _ H2)].
Qed.

Lemma gate_ok_leave ts lock t j tk :
  gate_ok ts lock -> ts !! t = Some (GenTask (GenInThread j)) ->
  in_thread tk = false -> gate_ok (<[t := tk]> ts) false.
Proof.
  intros [Huniq _] Ht Htk.
  assert (Hnone : forall t' j', <[t := tk]> ts !! t' <> Some (GenTask (GenInThread j'))).
  { intros t' j' H. apply lookup_insert_Some in H as [[_ E]|[Hne H]]; [rewrite E in Htk; discriminate|].
    apply Hne. exact (Huniq _ _ _ _ Ht H). }
  split.
  - intros t1 t2 j1 j2 H1 _. destruct (Hnone _ _ H1).
  - intros t' j' H. destruct (Hnone _ _ H).
Qed.

Lemma gate_exclusive_view (w : world) :
  gate_ok (tasks w) (inference_lock (self w)) -> gate_exclusive w.
Proof. intros H. exact H. Qed.

Lemma on_start_tasks_lock (w : world) (params : gmap string pyval) :
  inference_lock (self (on_start params w)) = inference_lock (self w) /\
  (tasks (on_start params w) = tasks w \/
   tasks (on_start params w) =
     <[S (next_task w) := GenTask GenCreated]> (<[next_task w := SendTask]> (tasks w))).
Proof.
  unfold on_start, call_update_params. simpl.
  destruct (negb (runner_ready (self w))); [split; [reflexivity|left; reflexivity]|].
  destruct (update_params params (cfg (self w))) as [c [[]|ex]]; simpl;
    [|split; [reflexivity|left; reflexivity]].
  destruct (create_placeholder_frame c) as [ph|ex]; simpl;
    [|split; [reflexivity|left; reflexivity]].
  split; [reflexivity|right; reflexivity].
Qed.

Lemma lifecycle_tasks_lock (w : world) (e : event) :
  match e with
  | EvLoad _ _ | EvUpdate _ | EvJobStart _ | EvJobCall _ | EvJobStepEnd _
  | EvJobFinish _ _ =>
      tasks (step w e) = tasks w /\
      inference_lock (self (step w e)) = inference_lock (self w)
  | _ => True
  end.
Proof.
  destruct e; try exact I; simpl.
  - unfold on_load. repeat case_match; split; reflexivity.
  - unfold on_update, call_update_params.
    destruct (update_params params (cfg (self w))) as [c [[]|ex]]; split; reflexivity.
  - unfold job_start. repeat case_match; split; reflexivity.
  - unfold job_call. repeat case_match; split; reflexivity.
  - unfold interrupt_callback. repeat case_match; split; reflexivity.
  - unfold job_finish. repeat case_match; split; reflexivity.
Qed.

(** Every step keeps the gate exclusive among the tasks. *)
Lemma gate_step (w : world) (e : event) :
  gate_exclusive w -> gate_exclusive (step w e).
Proof.
  intros Hw.
  assert (Hok : gate_ok (tasks w) (inference_lock (self w))) by exact Hw.
  assert (Hsame : forall w', tasks w' = tasks w /\
            inference_lock (self w') = inference_lock (self w) -> gate_exclusive w').
  { intros w' [Ht Hl]. apply gate_exclusive_view. rewrite Ht, Hl. exact Hok. }
  destruct e.
  - apply Hsame. exact (lifecycle_tasks_lock w (EvLoad doc model_ok)).
  - apply gate_exclusive_view. change (step w (EvStart params)) with (on_start params w).
    destruct (on_start_tasks_lock w params) as [-> [->| ->]]; [exact Hok|].
    apply gate_ok_insert_idle; [|reflexivity].
    apply gate_ok_insert_idle; [exact Hok|reflexivity].
  - apply Hsame. exact (lifecycle_tasks_lock w (EvUpdate params)).
  - change (step w EvStop) with (on_stop w). unfold on_stop.
    case_match; [apply Hsame; split; reflexivity|]. apply teardown_gate.
    apply Hsame. split; reflexivity.
  - change (step w (EvStopResume ready_after)) with (on_stop_resume ready_after w).
    unfold on_stop_resume. case_match; [exact Hw|]. apply teardown_gate.
    apply Hsame. split; reflexivity.
  - apply gate_exclusive_view. simpl.
    destruct (tasks w !! t) as [[[| |j| |]|]|] eqn:Et; try exact Hok;
      unfold gen_loop_top;
      (destruct stop_event; [simpl; apply gate_ok_delete; exact Hok|]);
      simpl;
      (destruct (inference_lock (self w)) eqn:El; simpl; rewrite ?El;
        [apply gate_ok_insert_idle; [exact Hok|reflexivity]
        |apply gate_ok_enter; exact Hok]).
  - apply gate_exclusive_view. simpl.
    destruct (tasks w !! t) as [[[| |j| |]|]|] eqn:Et; try exact Hok.
    destruct (inference_lock (self w)) eqn:El; simpl; rewrite ?El; [exact Hok|].
    apply gate_ok_enter. exact Hok.
  - apply gate_exclusive_view. simpl.
    destruct (tasks w !! t) as [[[| |j| |]|]|] eqn:Et; try exact Hok.
    destruct (jobs w !! j) as [[| | |[img|ex]]|] eqn:Ej; try exact Hok; simpl.
    + eapply gate_ok_leave; [exact Hok|exact Et|reflexivity].
    + eapply gate_ok_leave; [exact Hok|exact Et|reflexivity].
  - apply gate_exclusive_view. simpl.
    destruct (tasks w !! t) as [[[| |j| |]|]|] eqn:Et; try exact Hok.
    simpl. apply gate_ok_insert_idle; [exact Hok|reflexivity].
  - apply Hsame. exact (lifecycle_tasks_lock w (EvJobStart j)).
  - apply Hsame. exact (lifecycle_tasks_lock w (EvJobCall j)).
  - apply Hsame. exact (lifecycle_tasks_lock w (EvJobStepEnd j)).
  - apply Hsame. exact (lifecycle_tasks_lock w (EvJobFinish j out)).
  - apply gate_exclusive_view. simpl.
    destruct (tasks w !! t) as [[|]|] eqn:Et; try exact Hok.
    unfold send_tick. repeat case_match; simpl; try exact Hok.
    apply gate_ok_delete. exact Hok.
Qed.

(** In every reachable world at most one task is inside the gate. *)
Lemma inference_lock_exclusive (trace : list event) :
  gate_exclusive (run initial_world trace).
Proof.
  induction trace as [|e trace IH] using rev_ind.
  - split.
    + intros t1 t2 j1 j2 H. simpl in H. rewrite lookup_empty in H. discriminate.
    + intros t j H. simpl in H. rewrite lookup_empty in H. discriminate.
  - rewrite run_snoc. apply gate_step. exact IH.
Qed.

(** ** Synthesis loop: claims *)

(** While the lock is held, an iteration that reaches the [async with]
    waits: it creates no job, and the lock is not granted to it. *)
Lemma locked_iteration_waits (w : world) (t : nat) :
  inference_lock (self w) = true ->
  tasks w !! t = Some (GenTask GenSleeping) ->
  let w1 := step w (EvGenRun t false) in
  tasks w1 !! t = Some (GenTask GenAcquiring) /\
  jobs w1 = jobs w /\
  step w1 (EvGenAcquired t) = w1.
Proof.
  intros Hl Ht. simpl. rewrite Ht. unfold gen_loop_top. simpl. rewrite Hl. simpl.
  rewrite lookup_insert_eq. rewrite Hl. repeat split.
Qed.

(** C1 (the code departs from the claim).  Start; the first job is inside
    the pipeline; stop, whose wait for the completion signal times out, so
    that the tasks are cancelled and the lock is released while the worker
    thread goes on; start again.  The second session's loop finds the lock
    free and starts job 1 while job 0 is still running. *)
Theorem two_inferences_after_stop_timeout :
  let w := run initial_world restart_after_stop_timeout in
  (exists c0 k0 c1 k1,
     jobs w !! 0%nat = Some (JobCalling c0 k0) /\
     jobs w !! 1%nat = Some (JobCalling c1 k1)) /\
  length (running_jobs w) = 2%nat /\
  tasks w !! 3%nat = Some (GenTask (GenInThread 1)) /\
  surfaced w = [] /\
  warnings w = [timeout_warning].
Proof.
  unfold restart_after_stop_timeout. rewrite run_cons.
  destruct (load_default "") as [ph ->].
  split; [|split; [|split; [|split]]].
  - do 4 eexists. split; vm_compute; reflexivity.
  - vm_compute. reflexivity.
  - vm_compute. reflexivity.
  - vm_compute. reflexivity.
  - vm_compute. reflexivity.
Qed.

(** A parameter update leaves every job, and so every snapshot, as it is. *)
Lemma update_keeps_jobs (w : world) (params : gmap string pyval) :
  jobs (step w (EvUpdate params)) = jobs w.
Proof.
  simpl. unfold on_update, call_update_params.
  repeat case_match; simplify_eq; reflexivity.
Qed.

(** The snapshot is the configuration at the moment the job starts. *)
Lemma job_start_snapshot (w : world) (j : nat) :
  jobs w !! j = Some JobSubmitted ->
  jobs (step w (EvJobStart j)) !! j = Some (JobStarted (cfg (self w))).
Proof.
  intros Hj. simpl. rewrite Hj. unfold job_start. simpl. apply lookup_insert_eq.
Qed.

(** Without prompt enhancement, the arguments of the pipeline call are a
    function of the snapshot. *)
Lemma job_call_plain (w1 w2 : world) (j : nat) (snapshot : InfiniteFlux2Config) :
  enhance_prompt snapshot = false ->
  jobs (job_call j snapshot w1) !! j = jobs (job_call j snapshot w2) !! j.
Proof.
  intros He. unfold job_call. rewrite He. simpl. rewrite !lookup_insert_eq. reflexivity.
Qed.

(** C2 (the code departs from the claim).  A job whose snapshot has prompt
    enhancement on; in one run nothing happens between the snapshot and the
    pipeline call, in the other [update_parameters] changes
    [enhance_guidance] in between.  The snapshot is the same in both runs,
    but the prompt handed to the pipeline is not: [enhance_prompt] reads the
    guidance from the live configuration. *)
Theorem mid_job_update_reaches_enhanced_prompt :
  let undisturbed := run initial_world (enhanced_job_started ++ [EvJobCall 0]) in
  let updated :=
    run initial_world (enhanced_job_started ++ [EvUpdate guidance_request; EvJobCall 0]) in
  exists snapshot k1 k2,
    jobs undisturbed !! 0%nat = Some (JobCalling snapshot k1) /\
    jobs updated !! 0%nat = Some (JobCalling snapshot k2) /\
    enhance_guidance snapshot = PStr "none" /\
    kw_prompt k1 = Enhanced (PStr "none") "" (PStr "abstract watercolor sunset") /\
    kw_prompt k2 = Enhanced (PStr "film noir") "" (PStr "abstract watercolor sunset").
Proof.
  unfold enhanced_job_started. simpl app. rewrite !run_cons.
  destruct (load_default "") as [ph ->].
  do 3 eexists.
  split; [vm_compute; reflexivity|].
  split; [vm_compute; reflexivity|].
  repeat split.
Qed.

(** ** Frame holder and seed: claims *)







(** ** Lifecycle and emission: claims *)

Lemma teardown_idem (w : world) : teardown (teardown w) = teardown w.
Proof.
  unfold teardown. simpl.
  match goal with
  | |- context [fold_left cancel_task ?l ?x] =>
      destruct (cancel_tasks_frame l x) as ([b Hb] & _);
      remember (fold_left cancel_task l x) as F
  end.
  simpl in Hb. unfold upd_self, set_self. simpl. rewrite Hb. reflexivity.
Qed.

Lemma on_stop_wait_bounded (ready_after : option Z) :
  0 <= fst (on_stop_wait ready_after) <= stop_grace_period.
Proof.
  unfold on_stop_wait, wait_for, stop_grace_period.
  destruct ready_after as [d|]; simpl; [|lia].
  destruct (d <=? 20) eqn:E; simpl; [|lia].
  apply Z.leb_le in E. lia.
Qed.

Lemma on_stop_idle (w : world) :
  inference_in_progress (self w) = false ->
  on_stop w = teardown (upd_self (set_interrupt_requested true) w).
Proof.
  intros H. unfold on_stop. cbv zeta.
  change (inference_in_progress (self (upd_self (set_interrupt_requested true) w)))
    with (inference_in_progress (self w)).
  rewrite H. reflexivity.
Qed.

Lemma on_stop_waits (w : world) :
  inference_in_progress (self w) = true ->
  on_stop w = set_stops_waiting (S (stops_waiting w))
                (upd_self (set_interrupt_requested true) w).
Proof.
  intros H. unfold on_stop. cbv zeta.
  change (inference_in_progress (self (upd_self (set_interrupt_requested true) w)))
    with (inference_in_progress (self w)).
  rewrite H. reflexivity.
Qed.

Lemma on_stop_idem (w : world) :
  inference_in_progress (self w) = false -> on_stop (on_stop w) = on_stop w.
Proof.
  intros H. rewrite (on_stop_idle w H).
  set (x := upd_self (set_interrupt_requested true) w).
  rewrite on_stop_idle.
  2:{ destruct (teardown_frame x) as (_ & _ & _ & _ & _ & _ & _ & _ & Hip & _).
      rewrite Hip. exact H. }
  assert (E : upd_self (set_interrupt_requested true) (teardown x) = teardown x).
  { subst x. unfold teardown. simpl.
    match goal with
    | |- context [fold_left cancel_task ?l ?y] =>
        destruct (cancel_tasks_frame l y) as ([b Hb] & _);
        remember (fold_left cancel_task l y) as F
    end.
    simpl in Hb. unfold upd_self, set_self. simpl. rewrite Hb. reflexivity. }
  rewrite E. apply teardown_idem.
Qed.

(** C5.  [on_stop] sets the interrupt flag and lets no exception out.
    With no job in progress it tears down at once, and stopping again
    changes nothing.  With a job in progress it waits; whenever the wait
    ends, by the completion signal or by the timeout, in whatever state the
    world then is, it tears down and lets no exception out; the wait lasts
    at most the grace period of 20, and a timeout only adds a warning. *)
Theorem on_stop_always_tears_down (w : world) (ready_after : option Z) :
  let w1 := step w EvStop in
  interrupt_requested (self w1) = true /\
  surfaced w1 = surfaced w /\
  (inference_in_progress (self w) = false ->
     torn_down w w1 /\ stops_waiting w1 = stops_waiting w /\
     step w1 EvStop = w1) /\
  (inference_in_progress (self w) = true ->
     stops_waiting w1 = S (stops_waiting w) /\
     forall w2, stops_waiting w2 = S (stops_waiting w) ->
       let w3 := step w2 (EvStopResume ready_after) in
       torn_down w2 w3 /\ surfaced w3 = surfaced w2 /\
       stops_waiting w3 = stops_waiting w /\
       warnings w3 = warnings w2 ++ snd (on_stop_wait ready_after)) /\
  0 <= fst (on_stop_wait ready_after) <= stop_grace_period /\
  stop_grace_period = 20 /\
  snd (on_stop_wait None) = [timeout_warning].
Proof.
  intros w1. subst w1. change (step w EvStop) with (on_stop w).
  destruct (inference_in_progress (self w)) eqn:Hprog.
  - rewrite (on_stop_waits w Hprog).
    split; [reflexivity|]. split; [reflexivity|]. split; [discriminate|].
    split; [|split; [apply on_stop_wait_bounded|split; reflexivity]].
    intros _. split; [reflexivity|].
    intros w2 Hw2. change (step w2 (EvStopResume ready_after))
      with (on_stop_resume ready_after w2).
    unfold on_stop_resume. rewrite Hw2. cbv zeta.
    match goal with |- context [teardown ?x] =>
      pose proof (teardown_torn_down x) as Htd;
      pose proof (teardown_frame x) as Hfr
    end.
    destruct Hfr as (_ & _ & _ & _ & _ & _ & _ & _ & _ & _ & _ & _ & Hsu & Hwa & Hst & _).
    split; [exact Htd|]. split; [exact Hsu|]. split; [exact Hst|exact Hwa].
  - split; [|split; [|split; [|split; [discriminate|
      split; [apply on_stop_wait_bounded|split; reflexivity]]]]].
    + rewrite (on_stop_idle w Hprog).
      destruct (teardown_frame (upd_self (set_interrupt_requested true) w))
        as (_ & _ & _ & _ & _ & _ & _ & Hint & _).
      rewrite Hint. reflexivity.
    + rewrite (on_stop_idle w Hprog).
      destruct (teardown_frame (upd_self (set_interrupt_requested true) w))
        as (_ & _ & _ & _ & _ & _ & _ & _ & _ & _ & _ & _ & Hsu & _).
      rewrite Hsu. reflexivity.
    + intros _. split; [|split].
      * rewrite (on_stop_idle w Hprog).
        exact (teardown_torn_down (upd_self (set_interrupt_requested true) w)).
      * rewrite (on_stop_idle w Hprog).
        destruct (teardown_frame (upd_self (set_interrupt_requested true) w))
          as (_ & _ & _ & _ & _ & _ & _ & _ & _ & _ & _ & _ & _ & _ & Hst & _).
        rewrite Hst. reflexivity.
      * change (step (on_stop w) EvStop) with (on_stop (on_stop w)).
        apply on_stop_idem. exact Hprog.
Qed.

Lemma job_in_progress_world :
  inference_in_progress (self (run initial_world job_in_progress)) = true /\
  stops_waiting (run (run initial_world job_in_progress) [EvStop; EvJobStepEnd 0])
    = S (stops_waiting (run initial_world job_in_progress)).
Proof.
  unfold job_in_progress. rewrite run_cons.
  destruct (load_default "") as [ph ->].
  split; vm_compute; reflexivity.
Qed.

Lemma on_stop_always_tears_down_witness :
  (torn_down initial_world (step initial_world EvStop) /\
   step (step initial_world EvStop) EvStop = step initial_world EvStop) /\
  (let w2 := run (run initial_world job_in_progress) [EvStop; EvJobStepEnd 0] in
   torn_down w2 (step w2 (EvStopResume None)) /\
   surfaced (step w2 (EvStopResume None)) = surfaced w2).
Proof.
  split.
  - destruct (on_stop_always_tears_down initial_world None) as (_ & _ & Hidle & _).
    destruct Hidle as (Htd & _ & Hidem); [reflexivity|].
    split; [exact Htd|exact Hidem].
  - destruct job_in_progress_world as [Hprog Hwait].
    destruct (on_stop_always_tears_down (run initial_world job_in_progress) None)
      as (_ & _ & _ & Hbusy & _).
    destruct (Hbusy Hprog) as [_ Hresume].
    destruct (Hresume _ Hwait) as (Htd & Hsu & _).
    split; [exact Htd|exact Hsu].
Defined.

(** C8.  After a start that returned normally, whatever the other tasks,
    the worker threads and the callers do in between, as long as no further
    start occurs: the timing state starts at 0, and the frames handed to
    the sink since the start are, for some number [n] of ticks, a video
    frame and a silent audio frame per tick, both stamped with the tick
    number times [time_base // fps = 90000 // 16 = 5625], in the time base
    1/90000.  This holds for a stream without its own audio
    ([no_audio_in_stream]) attached to a processor. *)
Theorem emission_cadence (w : world) (params : gmap string pyval) (trace : list event) :
  processor (self w) = true ->
  no_audio_in_stream (self w) = true ->
  surfaced (step w (EvStart params)) = surfaced w ->
  Forall (fun e => is_start e = false) trace ->
  let w1 := step w (EvStart params) in
  let w2 := run w1 trace in
  time_base / fps = 5625 /\
  frame_timestamp (self w1) = 0 /\
  sent w1 = sent w /\
  exists (n : nat) (frames : list frame_out),
    sent w2 = sent w ++ frames /\
    stamp <$> frames = cadence 5625 n /\
    frame_timestamp (self w2) = Z.of_nat n * 5625 /\
    Forall (fun f => frame_time_base f = Qmake 1 90000) frames.
Proof.
  intros Hp Ha Hok Hq w1 w2.
  destruct (on_start_emitting w params Hp Ha Hok) as [Hem H0].
  split; [reflexivity|]. split; [exact H0|].
  assert (Hs1 : sent w1 = sent w).
  { destruct Hem as (_ & _ & _ & n & frames & Hts & Hsent & Hst & _).
    assert (n = 0%nat) as ->.
    { subst w1. simpl in H0. rewrite H0 in Hts.
      change (time_base / fps) with 5625 in Hts. lia. }
    destruct frames; [|discriminate Hst].
    subst w1. simpl. rewrite Hsent, app_nil_r. reflexivity. }
  split; [exact Hs1|].
  pose proof (emitting_run (sent w) trace w1 Hq Hem) as Hrun.
  destruct Hrun as (_ & _ & _ & n & frames & Hts & Hsent & Hst & Htb).
  exists n, frames. split; [exact Hsent|]. split; [exact Hst|]. split; [exact Hts|].
  exact Htb.
Qed.

Lemma ticks_during_job_world :
  processor (self (loaded_world "" (pil_to_bhwc one_pixel))) = true /\
  no_audio_in_stream (self (loaded_world "" (pil_to_bhwc one_pixel))) = true /\
  surfaced (step (loaded_world "" (pil_to_bhwc one_pixel)) (EvStart small_request))
    = surfaced (loaded_world "" (pil_to_bhwc one_pixel)) /\
  Forall (fun e => is_start e = false) ticks_during_job.
Proof.
  split; [reflexivity|]. split; [reflexivity|]. split; [vm_compute; reflexivity|].
  unfold ticks_during_job. repeat constructor.
Qed.

Lemma emission_cadence_witness :
  exists frames,
    sent (run (step (loaded_world "" (pil_to_bhwc one_pixel)) (EvStart small_request))
              ticks_during_job) = frames /\
    stamp <$> frames =
      [(Video, 0); (Audio, 0); (Video, 5625); (Audio, 5625);
       (Video, 11250); (Audio, 11250)].
Proof.
  destruct ticks_during_job_world as (Hp & Ha & Hok & Hq).
  destruct (emission_cadence (loaded_world "" (pil_to_bhwc one_pixel))
              small_request ticks_during_job Hp Ha Hok Hq)
    as (_ & _ & _ & n & frames & Hsent & Hst & Hts & _).
  exists frames. split; [exact Hsent|].
  assert (Hn : n = 3%nat).
  { assert (E : frame_timestamp
                  (self (run (step (loaded_world "" (pil_to_bhwc one_pixel))
                                   (EvStart small_request)) ticks_during_job))
                = 16875) by (vm_compute; reflexivity).
    rewrite E in Hts. lia. }
  rewrite Hst, Hn. reflexivity.
Defined.

(** * Further properties *)

(** ** Configuration store: requests *)

(** What an accepted request leaves in the configuration. *)
Lemma update_params_success (d p : gmap string pyval) (c c' : InfiniteFlux2Config) :
  request_body d = PDict p ->
  update_params d c = (c', Ok tt) ->
  py_int (default (PInt (height c)) (p !! "height")) = Ok (height c') /\
  py_int (default (PInt (width c)) (p !! "width")) = Ok (width c') /\
  prompt c' = default (prompt c) (p !! "prompt") /\
  py_int (default (PInt (steps c)) (p !! "steps")) = Ok (steps c') /\
  py_float (default (PFloat (guidance_scale c)) (p !! "guidance_scale"))
    = Ok (guidance_scale c') /\
  py_int (default (PInt (seed c)) (p !! "seed")) = Ok (seed c') /\
  seed_adjustment c' = default (seed_adjustment c) (p !! "seed_adjustment") /\
  (exists s, str_lower (default (PStr "no") (p !! "enhance_prompt")) = Ok s /\
             enhance_prompt c' = in_tuple s truthy) /\
  enhance_guidance c' = default (enhance_guidance c) (p !! "enhance_guidance") /\
  processed_reference_images c' = None /\
  reference_images c' = reference_images c /\
  prompt_guidance_doc c' = prompt_guidance_doc c.
Proof.
  intros Hb H. unfold update_params in H. rewrite Hb in H.
  unfold_stmt. unfold params_get in H. simpl in H.
  repeat (case_result; simpl in H; try discriminate H).
  inversion H; subst; clear H. simpl.
  repeat split; try assumption; try reflexivity.
  eexists. split; reflexivity.
Qed.

Lemma py_int_stable (a b : Z) (o : option pyval) :
  py_int (default (PInt a) o) = Ok b -> py_int (default (PInt b) o) = Ok b.
Proof. destruct o; simpl; [trivial|congruence]. Qed.

Lemma py_float_stable (a b : pyfloat) (o : option pyval) :
  py_float (default (PFloat a) o) = Ok b -> py_float (default (PFloat b) o) = Ok b.
Proof. destruct o; simpl; [trivial|congruence]. Qed.

Lemma default_stable {A : Type} (x x' : A) (o : option A) :
  x' = default x o -> default x' o = x'.
Proof. destruct o; simpl; congruence. Qed.

(** X1.  Applying an accepted request a second time changes nothing: the
    request is accepted again and the configuration stays as the first
    application left it. *)
Theorem update_params_idempotent (d : gmap string pyval) (c c' : InfiniteFlux2Config) :
  update_params d c = (c', Ok tt) ->
  update_params d c' = (c', Ok tt).
Proof.
  intros H.
  destruct (request_body d) as [| | | | |l|p] eqn:Hb;
    try (unfold update_params in H; rewrite Hb in H; discriminate H).
  destruct (update_params_success d p c c' Hb H)
    as (Hh & Hw & Hp & Hs & Hg & Hsd & Hsa & (s & Hep & Hepv) & Heg & Hpr & _ & _).
  unfold update_params. rewrite Hb. unfold_stmt. unfold params_get. simpl.
  rewrite (py_int_stable _ _ _ Hh). simpl.
  rewrite (py_int_stable _ _ _ Hw). simpl.
  rewrite (py_int_stable _ _ _ Hs). simpl.
  rewrite (py_float_stable _ _ _ Hg). simpl.
  rewrite (py_int_stable _ _ _ Hsd). simpl.
  rewrite Hep. simpl.
  rewrite (default_stable _ _ _ Hp), (default_stable _ _ _ Hsa),
    (default_stable _ _ _ Heg).
  destruct c'. simpl in *. subst. reflexivity.
Qed.

Lemma update_params_idempotent_witness :
  update_params request_height_only default_cfg
    = (set_processed_reference_images None (set_height 512 default_cfg), Ok tt) /\
  update_params request_height_only
      (set_processed_reference_images None (set_height 512 default_cfg))
    = (set_processed_reference_images None (set_height 512 default_cfg), Ok tt).
Proof.
  split; [reflexivity|].
  apply (update_params_idempotent request_height_only default_cfg). reflexivity.
Defined.

(** X2.  A request that carries a [params] entry is read from that entry
    alone, and the unwrapping is one level deep: when the entry is a
    dictionary [p], the call is the ten assignments reading [p], whatever
    else the outer request holds and whether or not [p] has a [params]
    entry of its own.  So two requests with the same [params] entry act
    alike, and the call behaves as if [p] had been passed exactly when [p]
    is not wrapped again. *)
Theorem update_params_wrapped (d p : gmap string pyval) (c : InfiniteFlux2Config) :
  d !! "params" = Some (PDict p) ->
  update_params d c = run_fields (PDict p) field_order c /\
  (forall d', d' !! "params" = Some (PDict p) ->
     update_params d' c = update_params d c) /\
  (p !! "params" = None -> update_params d c = update_params p c).
Proof.
  intros Hd.
  assert (Hbody : forall d', d' !! "params" = Some (PDict p) ->
            update_params d' c = run_fields (PDict p) field_order c).
  { intros d' Hd'. rewrite update_params_run_fields. unfold request_body.
    rewrite Hd'. reflexivity. }
  split; [exact (Hbody d Hd)|]. split.
  - intros d' Hd'. rewrite (Hbody d Hd), (Hbody d' Hd'). reflexivity.
  - intros Hp. rewrite (Hbody d Hd), update_params_run_fields.
    unfold request_body. rewrite Hp. reflexivity.
Qed.

Lemma update_params_wrapped_witness :
  update_params twice_wrapped_request default_cfg
    = run_fields (PDict twice_wrapped_body) field_order default_cfg /\
  update_params twice_wrapped_request default_cfg
    = (set_processed_reference_images None (set_height 512 default_cfg), Ok tt) /\
  update_params twice_wrapped_body default_cfg
    = (set_processed_reference_images None (set_height 7 default_cfg), Ok tt) /\
  update_params wrapped_request default_cfg = update_params request_height_only default_cfg.
Proof.
  destruct (update_params_wrapped twice_wrapped_request twice_wrapped_body default_cfg)
    as (Hbody & _); [reflexivity|].
  split; [exact Hbody|]. split; [rewrite Hbody; reflexivity|].
  split; [reflexivity|].
  destruct (update_params_wrapped wrapped_request request_height_only default_cfg)
    as (_ & _ & Hplain); [reflexivity|].
  apply Hplain. reflexivity.
Defined.

(** X3.  When the [params] entry of a request is not a dictionary, the call
    raises an attribute error at its first lookup and the configuration is
    untouched. *)
Theorem update_params_body_not_dict (d : gmap string pyval) (v : pyval)
    (c : InfiniteFlux2Config) :
  d !! "params" = Some v ->
  is_dict v = false ->
  update_params d c = (c, Raise AttributeError).
Proof.
  intros Hd Hv. unfold update_params, request_body. rewrite Hd.
  destruct v; try discriminate Hv; reflexivity.
Qed.

Lemma update_params_body_not_dict_witness :
  update_params {["params" := PStr "height=512"]} default_cfg
    = (default_cfg, Raise AttributeError).
Proof.
  apply (update_params_body_not_dict _ (PStr "height=512")); reflexivity.
Defined.

(** X4.  An [enhance_prompt] value that is not a string (a JSON boolean, a
    number, null) is never accepted: the call raises, and it leaves
    [enhance_prompt], [enhance_guidance] and the derived reference images
    as they were; when the numeric fields of the request are well-formed
    the exception is the attribute error of [.lower()]. *)
Theorem update_params_flag_not_string (d p : gmap string pyval) (v : pyval)
    (c : InfiniteFlux2Config) :
  request_body d = PDict p ->
  p !! "enhance_prompt" = Some v ->
  is_str v = false ->
  exists c' e,
    update_params d c = (c', Raise e) /\
    enhance_prompt c' = enhance_prompt c /\
    enhance_guidance c' = enhance_guidance c /\
    processed_reference_images c' = processed_reference_images c /\
    (is_ok (py_int (default (PInt (height c)) (p !! "height"))) = true ->
     is_ok (py_int (default (PInt (width c)) (p !! "width"))) = true ->
     is_ok (py_int (default (PInt (steps c)) (p !! "steps"))) = true ->
     is_ok (py_float (default (PFloat (guidance_scale c)) (p !! "guidance_scale")))
       = true ->
     is_ok (py_int (default (PInt (seed c)) (p !! "seed"))) = true ->
     e = AttributeError).
Proof.
  intros Hb Hk Hv. unfold update_params. rewrite Hb. unfold_stmt.
  unfold params_get. simpl. rewrite Hk. simpl.
  repeat (case_result; simpl);
    try (do 2 eexists; split; [reflexivity|];
         repeat split; try reflexivity; intros; try discriminate).
  - destruct v; discriminate.
  - destruct v; simpl in *; congruence.
Qed.

Lemma update_params_flag_not_string_witness :
  exists c',
    update_params boolean_flag_request default_cfg = (c', Raise AttributeError) /\
    height c' = 512 /\
    enhance_prompt c' = false.
Proof.
  destruct (update_params_flag_not_string boolean_flag_request boolean_flag_request
              (PBool true) default_cfg) as (c' & e & Hu & Hep & _ & _ & He);
    [reflexivity ..|].
  exists c'. rewrite (He eq_refl eq_refl eq_refl eq_refl eq_refl) in Hu.
  split; [exact Hu|]. split; [|exact Hep].
  assert (E : c' = fst (update_params boolean_flag_request default_cfg))
    by (rewrite Hu; reflexivity).
  rewrite E. reflexivity.
Defined.

Lemma in_tuple_elem_of (s : string) (t : list string) :
  in_tuple s t = true <-> s ∈ t.
Proof.
  unfold in_tuple. rewrite existsb_exists. split.
  - intros (x & Hin & Heq). apply String.eqb_eq in Heq. subst x.
    apply list_elem_of_In. exact Hin.
  - intros Hin. exists s. split; [apply list_elem_of_In; exact Hin|].
    apply String.eqb_refl.
Qed.

(** X5.  After an accepted request, prompt enhancement is on exactly when
    the request names [enhance_prompt] with one of the words yes, true, 1,
    y, on, in any letter case; no surrounding space is removed, and a
    request that does not name the field switches it off. *)
Theorem update_params_flag_words (d p : gmap string pyval) (c c' : InfiniteFlux2Config) :
  request_body d = PDict p ->
  update_params d c = (c', Ok tt) ->
  (enhance_prompt c' = true <->
   exists s, p !! "enhance_prompt" = Some (PStr s) /\
             lower s ∈ ["yes"; "true"; "1"; "y"; "on"]).
Proof.
  intros Hb H.
  destruct (update_params_success d p c c' Hb H)
    as (_ & _ & _ & _ & _ & _ & _ & (s & Hs & Hv) & _).
  rewrite Hv, in_tuple_elem_of. split.
  - intros Hin. destruct (p !! "enhance_prompt") as [v|] eqn:Hk; simpl in Hs.
    + destruct v; try discriminate Hs. injection Hs as <-.
      eexists. split; [reflexivity|exact Hin].
    + injection Hs as <-. exfalso. unfold truthy in Hin.
      rewrite !elem_of_cons, elem_of_nil in Hin. vm_compute in Hin.
      intuition discriminate.
  - intros (s' & Hk & Hin). rewrite Hk in Hs. simpl in Hs. injection Hs as <-.
    exact Hin.
Qed.

Lemma update_params_flag_words_witness :
  enhance_prompt (fst (update_params mixed_case_request default_cfg)) = true.
Proof.
  apply (update_params_flag_words mixed_case_request mixed_case_request default_cfg).
  - reflexivity.
  - reflexivity.
  - exists "YeS". split; [reflexivity|].
    rewrite !elem_of_cons. left. reflexivity.
Defined.

(** ** Placeholder generator: grid *)

(** X6.  With [min(height, width) >= 16] the square size is positive and
    the shorter side carries between 16 and 31 whole squares; each side
    carries at least 16. *)
Theorem placeholder_square_count (h w : Z) :
  16 <= Z.min w h ->
  exists s, square_size w h = Ok s /\ 0 < s /\
    16 <= Z.min w h / s <= 31 /\ 16 <= h / s /\ 16 <= w / s.
Proof.
  intros Hmin. exists (Z.min w h / 16).
  assert (Hs : 0 < Z.min w h / 16) by (apply Z.div_str_pos; lia).
  assert (Hlo : 16 * (Z.min w h / 16) <= Z.min w h) by (apply Z.mul_div_le; lia).
  assert (Hhi : Z.min w h < 16 * Z.succ (Z.min w h / 16))
    by (apply Z.mul_succ_div_gt; lia).
  split; [reflexivity|]. split; [exact Hs|].
  assert (H16 : forall a, Z.min w h <= a -> 16 <= a / (Z.min w h / 16)).
  { intros a Ha. apply Z.div_le_lower_bound; [exact Hs|]. lia. }
  split; [split|split].
  - apply H16. lia.
  - assert (Z.min w h / (Z.min w h / 16) < 32); [|lia].
    apply Z.div_lt_upper_bound; [exact Hs|]. lia.
  - apply H16. lia.
  - apply H16. lia.
Qed.

Lemma placeholder_square_count_witness :
  exists s, square_size 1024 768 = Ok s /\ 0 < s /\
    16 <= Z.min 1024 768 / s <= 31 /\ 16 <= 768 / s /\ 16 <= 1024 / s.
Proof. apply (placeholder_square_count 768 1024). vm_compute. discriminate. Defined.

(** X7.  When the square size divides both dimensions (as for the default
    1024 x 1024, squares of 64) and the image allocation takes them
    (height at most [2^31 - 1], width at most [(2^31 - 1) // 4 - 1]), the
    placeholder is a full checkerboard:
    every pixel is black when its grid row plus grid column is even and
    white otherwise, in all three channels. *)
Theorem placeholder_exact_fit (c : InfiniteFlux2Config) :
  16 <= Z.min (width c) (height c) ->
  width c <= max_line_pixels -> height c <= c_int_max ->
  let s := Z.min (width c) (height c) / 16 in
  height c mod s = 0 -> width c mod s = 0 ->
  exists t, create_placeholder_frame c = Ok t /\
    forall y x ch, 0 <= y < height c -> 0 <= x < width c -> 0 <= ch < 3 ->
      t_at t [0; y; x; ch] =
        if Z.even (y / s + x / s) then Qmake 0 255 else Qmake 255 255.
Proof.
  intros Hmin Hwmax Hhmax s Hh Hw.
  assert (Hs : 0 < s) by (apply Z.div_str_pos; lia).
  destruct (placeholder_frame_elements c Hmin Hwmax Hhmax) as (t & Ht & _ & Hel).
  exists t. split; [exact Ht|].
  intros y x ch Hy Hx Hc. rewrite (Hel y x ch Hy Hx Hc). fold s.
  assert (Eh : height c / s * s = height c).
  { pose proof (Z.div_mod (height c) s). lia. }
  assert (Ew : width c / s * s = width c).
  { pose proof (Z.div_mod (width c) s). lia. }
  rewrite Eh, Ew.
  replace (y <? height c) with true by (symmetry; apply Z.ltb_lt; lia).
  replace (x <? width c) with true by (symmetry; apply Z.ltb_lt; lia).
  simpl. destruct (Z.even (y / s + x / s)); reflexivity.
Qed.

Lemma placeholder_exact_fit_witness :
  exists t, create_placeholder_frame default_cfg = Ok t /\
    t_at t [0; 1000; 1000; 2] = Qmake 0 255 /\
    t_at t [0; 1000; 900; 2] = Qmake 255 255.
Proof.
  destruct (placeholder_exact_fit default_cfg) as (t & Ht & Hel);
    [vm_compute; discriminate ..|reflexivity|reflexivity|].
  exists t. split; [exact Ht|]. split.
  - rewrite Hel by (vm_compute; intuition discriminate). reflexivity.
  - rewrite Hel by (vm_compute; intuition discriminate). reflexivity.
Defined.

(** ** Structural invariants of the reachable worlds *)

Lemma wf_parts_task_set ts js nt nj lock prog bts t old tk :
  wf_parts ts js nt nj lock prog bts -> ts !! t = Some old -> in_thread old = false ->
  wf_parts (<[t := tk]> ts) js nt nj lock prog bts.
Proof.
  intros (Hft & Hfj & Hl & Hp & Hb) Ht Hold.
  split; [|split; [exact Hfj|split; [|split; [exact Hp|]]]].
  - intros t' x H. apply lookup_insert_Some in H as [[<- _]|[_ H]]; eauto.
  - intros E. destruct (Hl E) as (t' & j & H). exists t', j.
    rewrite lookup_insert_ne; [exact H|]. intros ->. rewrite Ht in H.
    inversion H; subst old. discriminate Hold.
  - intros t' x H. apply lookup_insert_Some in H as [[<- _]|[_ H]]; eauto.
Qed.

Lemma wf_parts_task_set_unlocked ts js nt nj lock prog bts t old tk :
  wf_parts ts js nt nj lock prog bts -> ts !! t = Some old ->
  in_thread tk = false \/ lock = false ->
  wf_parts (<[t := tk]> ts) js nt nj false prog bts.
Proof.
  intros (Hft & Hfj & Hl & Hp & Hb) Ht _.
  split; [|split; [exact Hfj|split; [discriminate|split; [exact Hp|]]]].
  - intros t' x H. apply lookup_insert_Some in H as [[<- _]|[_ H]]; eauto.
  - intros t' x H. apply lookup_insert_Some in H as [[<- _]|[_ H]]; eauto.
Qed.

Lemma wf_parts_task_delete ts js nt nj lock prog bts t old :
  wf_parts ts js nt nj lock prog bts -> ts !! t = Some old -> in_thread old = false ->
  wf_parts (delete t ts) js nt nj lock prog bts.
Proof.
  intros (Hft & Hfj & Hl & Hp & Hb) Ht Hold.
  split; [|split; [exact Hfj|split; [|split; [exact Hp|]]]].
  - intros t' x H. apply lookup_delete_Some in H as [_ H]. eauto.
  - intros E. destruct (Hl E) as (t' & j & H). exists t', j.
    rewrite lookup_delete_ne; [exact H|]. intros ->. rewrite Ht in H.
    inversion H; subst old. discriminate Hold.
  - intros t' x H. apply lookup_delete_Some in H as [_ H]. eauto.
Qed.

Lemma wf_parts_task_delete_unlocked ts js nt nj lock prog bts t :
  wf_parts ts js nt nj lock prog bts ->
  wf_parts (delete t ts) js nt nj false prog bts.
Proof.
  intros (Hft & Hfj & Hl & Hp & Hb).
  split; [|split; [exact Hfj|split; [discriminate|split; [exact Hp|]]]].
  - intros t' x H. apply lookup_delete_Some in H as [_ H]. eauto.
  - intros t' x H. apply lookup_delete_Some in H as [_ H]. eauto.
Qed.

Lemma wf_parts_enter ts js nt nj lock prog bts t old :
  wf_parts ts js nt nj lock prog bts -> ts !! t = Some old ->
  wf_parts (<[t := GenTask (GenInThread nj)]> ts) (<[nj := JobSubmitted]> js)
    nt (S nj) true prog bts.
Proof.
  intros (Hft & Hfj & Hl & Hp & Hb) Ht.
  split; [|split; [|split; [|split]]].
  - intros t' x H. apply lookup_insert_Some in H as [[<- _]|[_ H]]; eauto.
  - intros j x H. apply lookup_insert_Some in H as [[<- _]|[_ H]]; [lia|].
    apply Hfj in H. lia.
  - intros _. exists t, nj. apply lookup_insert_eq.
  - intros E. destruct (Hp E) as (j & x & H & Hr). exists j, x.
    split; [|exact Hr]. rewrite lookup_insert_ne; [exact H|].
    intros <-. apply Hfj in H. lia.
  - intros t' x H. apply lookup_insert_Some in H as [[<- _]|[_ H]]; eauto.
Qed.

Lemma wf_parts_job_set ts js nt nj lock prog bts j old new :
  wf_parts ts js nt nj lock prog bts -> js !! j = Some old ->
  (job_running old = true -> job_running new = true) ->
  wf_parts ts (<[j := new]> js) nt nj lock prog bts.
Proof.
  intros (Hft & Hfj & Hl & Hp & Hb) Hj Hrun.
  split; [exact Hft|split; [|split; [exact Hl|split; [|exact Hb]]]].
  - intros j' x H. apply lookup_insert_Some in H as [[<- _]|[_ H]]; eauto.
  - intros E. destruct (Hp E) as (j' & x & H & Hr).
    destruct (decide (j = j')) as [<-|Hne].
    + exists j, new. split; [apply lookup_insert_eq|].
      apply Hrun. rewrite Hj in H. inversion H; subst old. exact Hr.
    + exists j', x. split; [|exact Hr]. rewrite lookup_insert_ne; [exact H|exact Hne].
Qed.

Lemma wf_parts_job_start ts js nt nj lock prog bts j old new :
  wf_parts ts js nt nj lock prog bts -> js !! j = Some old ->
  job_running new = true ->
  wf_parts ts (<[j := new]> js) nt nj lock true bts.
Proof.
  intros (Hft & Hfj & Hl & Hp & Hb) Hj Hrun.
  split; [exact Hft|split; [|split; [exact Hl|split; [|exact Hb]]]].
  - intros j' x H. apply lookup_insert_Some in H as [[<- _]|[_ H]]; eauto.
  - intros _. exists j, new. split; [apply lookup_insert_eq|exact Hrun].
Qed.

Lemma wf_parts_job_finish ts js nt nj lock prog bts j old new :
  wf_parts ts js nt nj lock prog bts -> js !! j = Some old ->
  wf_parts ts (<[j := new]> js) nt nj lock false bts.
Proof.
  intros (Hft & Hfj & Hl & Hp & Hb) Hj.
  split; [exact Hft|split; [|split; [exact Hl|split; [discriminate|exact Hb]]]].
  intros j' x H. apply lookup_insert_Some in H as [[<- _]|[_ H]]; eauto.
Qed.

Lemma wf_parts_job_delete ts js nt nj lock prog bts j old :
  wf_parts ts js nt nj lock prog bts -> js !! j = Some old ->
  job_running old = false ->
  wf_parts ts (delete j js) nt nj lock prog bts.
Proof.
  intros (Hft & Hfj & Hl & Hp & Hb) Hj Hold.
  split; [exact Hft|split; [|split; [exact Hl|split; [|exact Hb]]]].
  - intros j' x H. apply lookup_delete_Some in H as [_ H]. eauto.
  - intros E. destruct (Hp E) as (j' & x & H & Hr). exists j', x.
    split; [|exact Hr]. rewrite lookup_delete_ne; [exact H|].
    intros ->. rewrite Hj in H. inversion H; subst old. congruence.
Qed.

Lemma wf_parts_spawn ts js nt nj lock prog bts tk :
  wf_parts ts js nt nj lock prog bts ->
  wf_parts (<[nt := tk]> ts) js (S nt) nj lock prog (bts ++ [nt]).
Proof.
  intros (Hft & Hfj & Hl & Hp & Hb).
  split; [|split; [exact Hfj|split; [|split; [exact Hp|]]]].
  - intros t' x H. apply lookup_insert_Some in H as [[<- _]|[_ H]]; [lia|].
    apply Hft in H. lia.
  - intros E. destruct (Hl E) as (t' & j & H). exists t', j.
    rewrite lookup_insert_ne; [exact H|]. intros <-. apply Hft in H. lia.
  - intros t' x H. apply elem_of_app.
    apply lookup_insert_Some in H as [[<- _]|[_ H]];
      [right; apply list_elem_of_singleton; reflexivity|left; eauto].
Qed.

Lemma wf_same (w w' : world) :
  tasks w' = tasks w -> jobs w' = jobs w -> next_task w' = next_task w ->
  next_job w' = next_job w ->
  inference_lock (self w') = inference_lock (self w) ->
  inference_in_progress (self w') = inference_in_progress (self w) ->
  background_tasks (self w') = background_tasks (self w) ->
  wf w -> wf w'.
Proof. unfold wf. intros -> -> -> -> -> -> ->. trivial. Qed.

(** [load] and [update_params] touch neither tasks nor threads. *)
Lemma control_plane_view (w : world) (e : event) :
  match e with
  | EvLoad _ _ | EvUpdate _ =>
      tasks (step w e) = tasks w /\ jobs (step w e) = jobs w /\
      next_task (step w e) = next_task w /\ next_job (step w e) = next_job w /\
      inference_lock (self (step w e)) = inference_lock (self w) /\
      inference_in_progress (self (step w e)) = inference_in_progress (self w) /\
      background_tasks (self (step w e)) = background_tasks (self w) /\
      sent (step w e) = sent w /\
      current_frame (self (step w e)) = current_frame (self w) /\
      interrupt_requested (self (step w e)) = interrupt_requested (self w) /\
      pipe_interrupt (self (step w e)) = pipe_interrupt (self w)
  | _ => True
  end.
Proof.
  destruct e; try exact I; simpl.
  - unfold on_load. repeat case_match; repeat split; reflexivity.
  - unfold on_update, call_update_params.
    destruct (update_params params (cfg (self w))) as [c [[]|ex]];
      repeat split; reflexivity.
Qed.

(** [on_start] either changes no task, or adds the two tasks of a session
    under fresh handles. *)
Lemma on_start_view (w : world) (params : gmap string pyval) :
  let w' := on_start params w in
  jobs w' = jobs w /\ next_job w' = next_job w /\
  inference_lock (self w') = inference_lock (self w) /\
  inference_in_progress (self w') = inference_in_progress (self w) /\
  interrupt_requested (self w') = interrupt_requested (self w) /\
  pipe_interrupt (self w') = pipe_interrupt (self w) /\
  ((tasks w' = tasks w /\ next_task w' = next_task w /\
    background_tasks (self w') = background_tasks (self w) /\
    sent w' = sent w /\ current_frame (self w') = current_frame (self w) /\
    exists e, surfaced w' = surfaced w ++ [e]) \/
   (tasks w' =
      <[S (next_task w) := GenTask GenCreated]> (<[next_task w := SendTask]> (tasks w)) /\
    next_task w' = S (S (next_task w)) /\
    background_tasks (self w') =
      (background_tasks (self w) ++ [next_task w]) ++ [S (next_task w)] /\
    runner_ready (self w) = true)).
Proof.
  unfold on_start, call_update_params. simpl.
  destruct (runner_ready (self w)); simpl;
    [|repeat (split; [reflexivity|]); left; repeat (split; [reflexivity|]);
      eexists; reflexivity].
  destruct (update_params params (cfg (self w))) as [c [[]|ex]]; simpl;
    [|repeat (split; [reflexivity|]); left; repeat (split; [reflexivity|]);
      eexists; reflexivity].
  destruct (create_placeholder_frame c) as [ph|ex]; simpl;
    [|repeat (split; [reflexivity|]); left; repeat (split; [reflexivity|]);
      eexists; reflexivity].
  repeat (split; [reflexivity|]). right. repeat split; reflexivity.
Qed.

Lemma cancel_task_wf (w : world) (t : nat) : wf w -> wf (cancel_task w t).
Proof.
  intros Hw. unfold cancel_task.
  destruct (tasks w !! t) as [[[| |j| |]|]|] eqn:Et; unfold wf; simpl;
    try exact Hw;
    try (eapply wf_parts_task_delete; [exact Hw|exact Et|reflexivity]).
  apply wf_parts_task_delete_unlocked with (lock := inference_lock (self w)).
  exact Hw.
Qed.

Lemma cancel_tasks_wf (l : list nat) : forall w,
  wf w -> wf (fold_left cancel_task l w).
Proof.
  induction l as [|u l IH]; intros w Hw; simpl; [exact Hw|].
  apply IH, cancel_task_wf, Hw.
Qed.

Lemma cancel_tasks_none (l : list nat) : forall w t,
  tasks w !! t = None -> tasks (fold_left cancel_task l w) !! t = None.
Proof.
  induction l as [|u l IH]; intros w t Hn; simpl; [exact Hn|].
  apply IH. unfold cancel_task. repeat case_match; simpl; try exact Hn;
    (destruct (decide (u = t)) as [->|Hne];
      [apply lookup_delete_eq | rewrite lookup_delete_ne by exact Hne; exact Hn]).
Qed.

Lemma cancel_tasks_all (l : list nat) (w : world) :
  (forall t x, tasks w !! t = Some x -> t ∈ l) ->
  tasks (fold_left cancel_task l w) = ∅.
Proof.
  intros Hall. apply map_empty. intros t.
  destruct (tasks w !! t) as [x|] eqn:E.
  - apply cancel_tasks_gone. exact (Hall t x E).
  - apply cancel_tasks_none. exact E.
Qed.

(** After the teardown no task is left, the lock is free and the list of
    background tasks is empty. *)
Lemma teardown_wf (w : world) :
  wf w ->
  wf (teardown w) /\ tasks (teardown w) = ∅ /\
  inference_lock (self (teardown w)) = false /\
  background_tasks (self (teardown w)) = [].
Proof.
  intros Hw. unfold teardown.
  set (w1 := upd_self (set_frame_queue []) w).
  assert (Hw1 : wf w1) by exact Hw.
  set (w2 := fold_left cancel_task (background_tasks (self w1)) w1).
  assert (Hw2 : wf w2) by (apply cancel_tasks_wf; exact Hw1).
  assert (Ht2 : tasks w2 = ∅).
  { apply cancel_tasks_all. destruct Hw1 as (_ & _ & _ & _ & Hb). exact Hb. }
  assert (Hl2 : inference_lock (self w2) = false).
  { destruct (inference_lock (self w2)) eqn:E; [|reflexivity].
    destruct Hw2 as (_ & _ & Hl & _). destruct (Hl E) as (t & j & H).
    rewrite Ht2, lookup_empty in H. discriminate. }
  cbv zeta.
  change (wf_parts (tasks w2) (jobs w2) (next_task w2) (next_job w2)
            (inference_lock (self w2)) (inference_in_progress (self w2)) [] /\
          tasks w2 = ∅ /\ inference_lock (self w2) = false /\ @nil nat = []).
  split; [|split; [exact Ht2|split; [exact Hl2|reflexivity]]].
  destruct Hw2 as (Hft & Hfj & Hl & Hp & Hb).
  split; [exact Hft|split; [exact Hfj|split; [exact Hl|split; [exact Hp|]]]].
  intros t x H. rewrite Ht2, lookup_empty in H. discriminate.
Qed.

Lemma wf_step (w : world) (e : event) : wf w -> wf (step w e).
Proof.
  intros Hw. destruct e.
  - destruct (control_plane_view w (EvLoad doc model_ok))
      as (H1 & H2 & H3 & H4 & H5 & H6 & H7 & _).
    exact (wf_same _ _ H1 H2 H3 H4 H5 H6 H7 Hw).
  - change (step w (EvStart params)) with (on_start params w).
    destruct (on_start_view w params)
      as (Hj & Hnj & Hl & Hp & _ & _ & [(Ht & Hnt & Hb & _)|(Ht & Hnt & Hb & _)]).
    + exact (wf_same _ _ Ht Hj Hnt Hnj Hl Hp Hb Hw).
    + unfold wf. rewrite Ht, Hj, Hnt, Hnj, Hl, Hp, Hb.
      apply wf_parts_spawn, wf_parts_spawn. exact Hw.
  - destruct (control_plane_view w (EvUpdate params))
      as (H1 & H2 & H3 & H4 & H5 & H6 & H7 & _).
    exact (wf_same _ _ H1 H2 H3 H4 H5 H6 H7 Hw).
  - change (step w EvStop) with (on_stop w). unfold on_stop.
    case_match; [exact Hw|].
    apply teardown_wf. exact Hw.
  - change (step w (EvStopResume ready_after)) with (on_stop_resume ready_after w).
    unfold on_stop_resume. case_match; [exact Hw|].
    apply teardown_wf. exact Hw.
  - unfold wf. simpl.
    destruct (tasks w !! t) as [[[| |j| |]|]|] eqn:Et; try exact Hw;
      unfold gen_loop_top;
      (destruct stop_event;
        [simpl; eapply wf_parts_task_delete; [exact Hw|exact Et|reflexivity]|]);
      simpl;
      (destruct (inference_lock (self w)) eqn:El; simpl; rewrite ?El;
        [eapply wf_parts_task_set; [|exact Et|reflexivity];
         unfold wf in Hw; rewrite El in Hw; exact Hw
        |eapply wf_parts_enter; [exact Hw|exact Et]]).
  - unfold wf. simpl.
    destruct (tasks w !! t) as [[[| |j| |]|]|] eqn:Et; try exact Hw.
    destruct (inference_lock (self w)) eqn:El; simpl; rewrite ?El;
      [unfold wf in Hw; rewrite El in Hw; exact Hw|].
    eapply wf_parts_enter; [exact Hw|exact Et].
  - unfold wf. simpl.
    destruct (tasks w !! t) as [[[| |j| |]|]|] eqn:Et; try exact Hw.
    destruct (jobs w !! j) as [[| | |[img|ex]]|] eqn:Ej; try exact Hw; simpl;
      (eapply wf_parts_task_set_unlocked; [|exact Et|left; reflexivity];
       eapply wf_parts_job_delete; [exact Hw|exact Ej|reflexivity]).
  - unfold wf. simpl.
    destruct (tasks w !! t) as [[[| |j| |]|]|] eqn:Et; try exact Hw.
    simpl. eapply wf_parts_task_set; [exact Hw|exact Et|reflexivity].
  - unfold wf. simpl.
    destruct (jobs w !! j) as [[| | |r]|] eqn:Ej; try exact Hw.
    simpl. eapply wf_parts_job_start; [exact Hw|exact Ej|reflexivity].
  - unfold wf. simpl.
    destruct (jobs w !! j) as [[| | |r]|] eqn:Ej; try exact Hw.
    simpl. eapply wf_parts_job_set; [exact Hw|exact Ej|reflexivity].
  - unfold wf. simpl.
    destruct (jobs w !! j) as [[| | |r]|] eqn:Ej; try exact Hw.
    unfold interrupt_callback. case_match; exact Hw.
  - unfold wf. simpl.
    destruct (jobs w !! j) as [[| | |r]|] eqn:Ej; try exact Hw.
    + destruct out; [exact Hw|].
      simpl. eapply wf_parts_job_finish; [exact Hw|exact Ej].
    + simpl. eapply wf_parts_job_finish; [exact Hw|exact Ej].
  - unfold wf. simpl.
    destruct (tasks w !! t) as [[|]|] eqn:Et; try exact Hw.
    unfold send_tick. repeat case_match; simpl; try exact Hw.
    eapply wf_parts_task_delete; [exact Hw|exact Et|reflexivity].
Qed.

Lemma wf_run_from (trace : list event) : forall w, wf w -> wf (run w trace).
Proof.
  induction trace as [|e trace IH]; intros w Hw; [exact Hw|].
  rewrite run_cons. apply IH, wf_step, Hw.
Qed.

Lemma wf_initial : wf initial_world.
Proof.
  unfold wf. simpl.
  split; [|split; [|split; [discriminate|split; [discriminate|]]]];
    intros k x H; rewrite lookup_empty in H; discriminate.
Qed.

Lemma wf_run (trace : list event) : wf (run initial_world trace).
Proof. apply wf_run_from, wf_initial. Qed.

(** ** Reachable worlds: lock, tasks and threads *)

(** X8.  In every reachable world the inference lock is held exactly when
    a synthesis task is inside the locked region, and there is at most one
    such task: the lock is never left held by a task that is gone. *)
Theorem lock_held_iff_task_inside (trace : list event) :
  let w := run initial_world trace in
  (inference_lock (self w) = true <->
   exists t j, tasks w !! t = Some (GenTask (GenInThread j))) /\
  (forall t1 t2 j1 j2,
     tasks w !! t1 = Some (GenTask (GenInThread j1)) ->
     tasks w !! t2 = Some (GenTask (GenInThread j2)) -> t1 = t2 /\ j1 = j2).
Proof.
  intros w.
  destruct (inference_lock_exclusive trace) as [Huniq Hheld].
  destruct (wf_run trace) as (_ & _ & Hl & _).
  split; [split|].
  - exact Hl.
  - intros (t & j & H). exact (Hheld t j H).
  - intros t1 t2 j1 j2 H1 H2.
    pose proof (Huniq _ _ _ _ H1 H2) as E. subst t2.
    split; [reflexivity|]. fold w in H1, H2. congruence.
Qed.

(** X9.  A stop that runs to its end (an [on_stop] with no inference in
    progress, or the resumption of one that waited) leaves no task at all
    in a reachable world, the lock free and the task list empty. *)
Theorem stop_cancels_every_task (trace : list event) (e : event) :
  let w := run initial_world trace in
  completes_stop w e = true ->
  tasks (step w e) = ∅ /\ inference_lock (self (step w e)) = false /\
  background_tasks (self (step w e)) = [].
Proof.
  intros w He. pose proof (wf_run trace) as Hw. fold w in Hw.
  destruct e; try discriminate He; simpl in He.
  - change (step w EvStop) with (on_stop w).
    rewrite on_stop_idle by (destruct (inference_in_progress (self w));
                             [discriminate He|reflexivity]).
    apply teardown_wf. exact Hw.
  - change (step w (EvStopResume ready_after)) with (on_stop_resume ready_after w).
    unfold on_stop_resume. destruct (stops_waiting w) as [|n]; [discriminate He|].
    apply teardown_wf. exact Hw.
Qed.

Lemma stop_during_job_world :
  completes_stop (run initial_world stop_during_job) (EvStopResume None) = true /\
  inference_in_progress (self (run initial_world job_in_progress)) = true /\
  in_pipeline (run initial_world job_in_progress) 0 = true.
Proof.
  unfold stop_during_job, job_in_progress. rewrite !run_cons.
  destruct (load_default "") as [ph ->].
  split; [|split]; vm_compute; reflexivity.
Qed.

Lemma stop_cancels_every_task_witness :
  let w := run initial_world stop_during_job in
  tasks (step w (EvStopResume None)) = ∅ /\
  inference_lock (self (step w (EvStopResume None))) = false /\
  background_tasks (self (step w (EvStopResume None))) = [].
Proof.
  apply (stop_cancels_every_task stop_during_job (EvStopResume None)).
  exact (proj1 stop_during_job_world).
Defined.

(** X10.  In every reachable world a raised [inference_in_progress] flag
    has a worker thread behind it that is inside
    [_run_inference_with_callback]. *)
Theorem in_progress_has_thread (trace : list event) :
  let w := run initial_world trace in
  inference_in_progress (self w) = true ->
  exists j x, jobs w !! j = Some x /\ job_running x = true.
Proof.
  intros w H. destruct (wf_run trace) as (_ & _ & _ & Hp & _). exact (Hp H).
Qed.

Lemma in_progress_has_thread_witness :
  exists j x, jobs (run initial_world job_in_progress) !! j = Some x /\
              job_running x = true.
Proof.
  apply (in_progress_has_thread job_in_progress).
  exact (proj1 (proj2 stop_during_job_world)).
Defined.

(** ** Before the models are loaded *)

Lemma unloaded_step (trace : list event) (e : event) :
  let w := run initial_world trace in
  is_load_ok e = false ->
  runner_ready (self w) = false /\ tasks w = ∅ /\ jobs w = ∅ /\ sent w = [] /\
    current_frame (self w) = None ->
  let w' := step w e in
  runner_ready (self w') = false /\ tasks w' = ∅ /\ jobs w' = ∅ /\ sent w' = [] /\
    current_frame (self w') = None.
Proof.
  intros w He (Hr & Ht & Hj & Hs & Hc) w'. subst w'.
  pose proof (wf_run trace) as Hw. fold w in Hw.
  destruct e; simpl; rewrite ?Ht, ?Hj, ?lookup_empty; try (repeat split; assumption).
  - destruct model_ok; [discriminate He|]. simpl. repeat split; assumption.
  - unfold on_start. simpl. rewrite Hr. simpl. repeat split; assumption.
  - unfold on_update, call_update_params.
    destruct (update_params params (cfg (self w))) as [c [[]|ex]]; simpl;
      repeat split; assumption.
  - unfold on_stop. case_match; [simpl; repeat split; assumption|].
    match goal with |- context [teardown ?x] =>
      destruct (teardown_frame x)
        as (_ & Hcf & _ & _ & _ & _ & _ & _ & _ & Hrr & Hjj & Hss & _);
      destruct (teardown_wf x Hw) as (_ & Htt & _)
    end.
    rewrite Hrr, Htt, Hjj, Hss, Hcf. simpl. repeat split; assumption.
  - unfold on_stop_resume. case_match; [repeat split; assumption|].
    match goal with |- context [teardown ?x] =>
      destruct (teardown_frame x)
        as (_ & Hcf & _ & _ & _ & _ & _ & _ & _ & Hrr & Hjj & Hss & _);
      destruct (teardown_wf x Hw) as (_ & Htt & _)
    end.
    rewrite Hrr, Htt, Hjj, Hss, Hcf. simpl. repeat split; assumption.
Qed.

(** X11.  As long as no [load] has succeeded, nothing runs: the worker is
    not ready, there is no task and no worker thread, no frame was sent,
    the frame holder is empty, and every start request raises
    "Model not loaded" and changes nothing else of that. *)
Theorem nothing_runs_before_load (trace : list event) :
  Forall (fun e => is_load_ok e = false) trace ->
  let w := run initial_world trace in
  (runner_ready (self w) = false /\ tasks w = ∅ /\ jobs w = ∅ /\ sent w = [] /\
   current_frame (self w) = None) /\
  forall params,
    surfaced (step w (EvStart params)) =
      surfaced w ++ [RuntimeError "Model not loaded - please wait for load() to complete"].
Proof.
  intros Htr.
  assert (Hinv : let w := run initial_world trace in
            runner_ready (self w) = false /\ tasks w = ∅ /\ jobs w = ∅ /\
            sent w = [] /\ current_frame (self w) = None).
  { induction trace as [|e trace IH] using rev_ind.
    - repeat split.
    - apply Forall_app in Htr as [Htr He]. rewrite Forall_singleton in He.
      rewrite run_snoc. apply unloaded_step; [exact He|]. apply IH. exact Htr. }
  intros w. split; [exact Hinv|].
  intros params. destruct Hinv as (Hr & _).
  change (step w (EvStart params)) with (on_start params w).
  unfold on_start. simpl. fold w in Hr. rewrite Hr. reflexivity.
Qed.

Lemma nothing_runs_before_load_witness :
  let w := run initial_world start_before_load in
  (runner_ready (self w) = false /\ tasks w = ∅ /\ jobs w = ∅ /\ sent w = [] /\
   current_frame (self w) = None) /\
  forall params,
    surfaced (step w (EvStart params)) =
      surfaced w ++ [RuntimeError "Model not loaded - please wait for load() to complete"].
Proof.
  apply (nothing_runs_before_load start_before_load).
  repeat constructor.
Defined.

(** ** Worker threads among the other activities *)

(** A worker thread inside [_run_inference_with_callback] is moved by its
    own steps only. *)
Lemma job_kept (w : world) (e : event) (j : nat) (x : job) :
  wf w -> jobs w !! j = Some x -> job_running x = true -> drives_job j e = false ->
  jobs (step w e) !! j = Some x.
Proof.
  intros Hw Hj Hx He.
  assert (Hfresh : next_job w <> j).
  { destruct Hw as (_ & Hfj & _). apply Hfj in Hj. lia. }
  assert (Hother : forall j' y, jobs w !! j' = Some y -> job_running y = false -> j' <> j).
  { intros j' y Hy Hr ->. rewrite Hy in Hj. inversion Hj; subst y. congruence. }
  destruct e as [doc ok|params|params| |ra|t se|t|t en|t|j'|j'|j'|j' out|t se].
  - destruct (control_plane_view w (EvLoad doc ok)) as (_ & -> & _). exact Hj.
  - change (step w (EvStart params)) with (on_start params w).
    destruct (on_start_view w params) as (-> & _). exact Hj.
  - destruct (control_plane_view w (EvUpdate params)) as (_ & -> & _). exact Hj.
  - change (step w EvStop) with (on_stop w). unfold on_stop.
    case_match; [exact Hj|].
    match goal with |- context [teardown ?y] =>
      destruct (teardown_frame y) as (_ & _ & _ & _ & _ & _ & _ & _ & _ & _ & -> & _)
    end. exact Hj.
  - change (step w (EvStopResume ra)) with (on_stop_resume ra w).
    unfold on_stop_resume. case_match; [exact Hj|].
    match goal with |- context [teardown ?y] =>
      destruct (teardown_frame y) as (_ & _ & _ & _ & _ & _ & _ & _ & _ & _ & -> & _)
    end. exact Hj.
  - simpl. destruct (tasks w !! t) as [[[| |j'| |]|]|]; try exact Hj;
      unfold gen_loop_top; (destruct se; [exact Hj|]); simpl;
      (destruct (inference_lock (self w)); simpl; [exact Hj|];
       rewrite lookup_insert_ne by exact Hfresh; exact Hj).
  - simpl. destruct (tasks w !! t) as [[[| |j'| |]|]|]; try exact Hj.
    destruct (inference_lock (self w)); simpl; [exact Hj|].
    rewrite lookup_insert_ne by exact Hfresh. exact Hj.
  - simpl. destruct (tasks w !! t) as [[[| |j'| |]|]|]; try exact Hj.
    destruct (jobs w !! j') as [[| | |[img|ex]]|] eqn:Ej; try exact Hj; simpl;
      (rewrite lookup_delete_ne by (eapply Hother; [exact Ej|reflexivity]); exact Hj).
  - simpl. destruct (tasks w !! t) as [[[| |j'| |]|]|]; exact Hj.
  - simpl. destruct (jobs w !! j') as [[| | |r]|] eqn:Ej; try exact Hj. simpl.
    rewrite lookup_insert_ne by (eapply Hother; [exact Ej|reflexivity]). exact Hj.
  - simpl in He. apply Nat.eqb_neq in He.
    simpl. destruct (jobs w !! j') as [[| | |r]|] eqn:Ej; try exact Hj. simpl.
    rewrite lookup_insert_ne by (intros E; apply He; symmetry; exact E). exact Hj.
  - simpl. destruct (jobs w !! j') as [[| | |r]|] eqn:Ej; try exact Hj.
    unfold interrupt_callback. case_match; exact Hj.
  - simpl in He. apply Nat.eqb_neq in He.
    assert (Hne : j' <> j) by (intros E; apply He; symmetry; exact E).
    simpl. destruct (jobs w !! j') as [[| | |r]|] eqn:Ej; try exact Hj.
    + destruct out; [exact Hj|]. simpl.
      rewrite lookup_insert_ne by exact Hne. exact Hj.
    + simpl. rewrite lookup_insert_ne by exact Hne. exact Hj.
  - simpl. destruct (tasks w !! t) as [[|]|]; try exact Hj.
    unfold send_tick. repeat case_match; exact Hj.
Qed.

Lemma job_kept_run (trace : list event) (j : nat) (x : job) : forall w,
  wf w -> jobs w !! j = Some x -> job_running x = true ->
  Forall (fun e => drives_job j e = false) trace ->
  wf (run w trace) /\ jobs (run w trace) !! j = Some x.
Proof.
  induction trace as [|e trace IH]; intros w Hw Hj Hx Htr; [split; assumption|].
  apply Forall_cons in Htr as [He Htr]. rewrite run_cons.
  apply IH; [apply wf_step; exact Hw|apply job_kept; assumption|exact Hx|exact Htr].
Qed.

(** The interrupt request stays raised until a synthesis loop passes its
    top. *)
Lemma interrupt_kept (w : world) (e : event) :
  interrupt_requested (self w) = true -> is_gen_run e = false ->
  interrupt_requested (self (step w e)) = true.
Proof.
  intros Hi He.
  destruct e as [doc ok|params|params| |ra|t se|t|t en|t|j'|j'|j'|j' out|t se];
    try discriminate He.
  - destruct (control_plane_view w (EvLoad doc ok))
      as (_ & _ & _ & _ & _ & _ & _ & _ & _ & -> & _). exact Hi.
  - change (step w (EvStart params)) with (on_start params w).
    destruct (on_start_view w params) as (_ & _ & _ & _ & -> & _). exact Hi.
  - destruct (control_plane_view w (EvUpdate params))
      as (_ & _ & _ & _ & _ & _ & _ & _ & _ & -> & _). exact Hi.
  - change (step w EvStop) with (on_stop w). unfold on_stop.
    case_match; [reflexivity|].
    match goal with |- context [teardown ?y] =>
      destruct (teardown_frame y) as (_ & _ & _ & _ & _ & _ & _ & -> & _)
    end. reflexivity.
  - change (step w (EvStopResume ra)) with (on_stop_resume ra w).
    unfold on_stop_resume. case_match; [exact Hi|].
    match goal with |- context [teardown ?y] =>
      destruct (teardown_frame y) as (_ & _ & _ & _ & _ & _ & _ & -> & _)
    end. exact Hi.
  - simpl. destruct (tasks w !! t) as [[[| |j'| |]|]|]; try exact Hi.
    destruct (inference_lock (self w)); exact Hi.
  - simpl. destruct (tasks w !! t) as [[[| |j'| |]|]|]; try exact Hi.
    destruct (jobs w !! j') as [[| | |[img|ex]]|]; exact Hi.
  - simpl. destruct (tasks w !! t) as [[[| |j'| |]|]|]; exact Hi.
  - simpl. destruct (jobs w !! j') as [[| | |r]|]; exact Hi.
  - simpl. destruct (jobs w !! j') as [[| | |r]|]; exact Hi.
  - simpl. destruct (jobs w !! j') as [[| | |r]|]; try exact Hi.
    unfold interrupt_callback. rewrite Hi. exact Hi.
  - simpl. destruct (jobs w !! j') as [[| | |r]|]; try exact Hi.
    destruct out; exact Hi.
  - simpl. destruct (tasks w !! t) as [[|]|]; try exact Hi.
    unfold send_tick. repeat case_match; exact Hi.
Qed.

Lemma interrupt_kept_run (trace : list event) : forall w,
  interrupt_requested (self w) = true ->
  Forall (fun e => is_gen_run e = false) trace ->
  interrupt_requested (self (run w trace)) = true.
Proof.
  induction trace as [|e trace IH]; intros w Hi Htr; [exact Hi|].
  apply Forall_cons in Htr as [He Htr]. rewrite run_cons.
  apply IH; [apply interrupt_kept; assumption|exact Htr].
Qed.

Lemma on_stop_requests_interrupt (w : world) :
  interrupt_requested (self (on_stop w)) = true.
Proof.
  unfold on_stop. case_match; [reflexivity|].
  match goal with |- context [teardown ?y] =>
    destruct (teardown_frame y) as (_ & _ & _ & _ & _ & _ & _ & -> & _)
  end. reflexivity.
Qed.

(** X12.  A stop requested while a worker thread is inside the pipeline
    call reaches that call: provided no synthesis loop passes its top in
    between (which would clear the request), the next step end marks the
    pipeline, and a call that then fails, whatever its message, is reported
    as "Inference was interrupted"; the thread lowers the in-progress flag
    and sets the completion event. *)
Theorem stop_interrupts_running_job (trace0 trace : list event) (j : nat) (msg : string) :
  let w := run initial_world trace0 in
  in_pipeline w j = true ->
  Forall (fun e => is_gen_run e = false /\ drives_job j e = false) trace ->
  let w' := run w (EvStop :: trace ++ [EvJobStepEnd j; EvJobFinish j (Raised msg)]) in
  jobs w' !! j = Some (JobFinished (Raise (RuntimeError "Inference was interrupted"))) /\
  inference_in_progress (self w') = false /\
  inference_completed_event (self w') = true.
Proof.
  intros w Hin Htr w'. subst w'.
  unfold in_pipeline in Hin.
  destruct (jobs w !! j) as [[| |snap kw|]|] eqn:Hj; try discriminate Hin.
  pose proof (wf_run trace0) as Hw. fold w in Hw.
  rewrite run_cons, run_app.
  assert (Hj1 : jobs (step w EvStop) !! j = Some (JobCalling snap kw))
    by (apply job_kept; [exact Hw|exact Hj|reflexivity|reflexivity]).
  assert (Hi1 : interrupt_requested (self (step w EvStop)) = true)
    by exact (on_stop_requests_interrupt w).
  assert (Hw1 : wf (step w EvStop)) by (apply wf_step; exact Hw).
  destruct (job_kept_run trace j (JobCalling snap kw) (step w EvStop) Hw1 Hj1 eq_refl)
    as [_ Hj2].
  { eapply Forall_impl; [exact Htr|]. intros e [_ H]. exact H. }
  assert (Hi2 : interrupt_requested (self (run (step w EvStop) trace)) = true).
  { apply interrupt_kept_run; [exact Hi1|].
    eapply Forall_impl; [exact Htr|]. intros e [H _]. exact H. }
  set (w2 := run (step w EvStop) trace) in *.
  change (run w2 [EvJobStepEnd j; EvJobFinish j (Raised msg)])
    with (step (step w2 (EvJobStepEnd j)) (EvJobFinish j (Raised msg))).
  assert (E3 : step w2 (EvJobStepEnd j) = upd_self (set_pipe_interrupt true) w2).
  { simpl. rewrite Hj2. unfold interrupt_callback. rewrite Hi2. reflexivity. }
  rewrite E3.
  assert (E4 : step (upd_self (set_pipe_interrupt true) w2) (EvJobFinish j (Raised msg))
               = job_finish j (Raised msg) (upd_self (set_pipe_interrupt true) w2)).
  { simpl. rewrite Hj2. reflexivity. }
  rewrite E4. unfold job_finish. simpl.
  rewrite lookup_insert_eq, orb_true_r. repeat split.
Qed.

Lemma stop_interrupts_running_job_witness :
  let w' := run (run initial_world job_in_progress)
              (EvStop :: [EvSendTick 0 false; EvUpdate guidance_request]
                 ++ [EvJobStepEnd 0; EvJobFinish 0 (Raised "out of memory")]) in
  jobs w' !! 0%nat = Some (JobFinished (Raise (RuntimeError "Inference was interrupted"))) /\
  inference_in_progress (self w') = false /\
  inference_completed_event (self w') = true.
Proof.
  apply (stop_interrupts_running_job job_in_progress
           [EvSendTick 0 false; EvUpdate guidance_request] 0 "out of memory").
  - exact (proj2 (proj2 stop_during_job_world)).
  - repeat constructor.
Defined.

(** X13.  The pipeline is called with the values of the snapshot taken at
    the start of the job, whatever the other tasks, threads and callers do
    between the snapshot and the call: seed, reference images, height,
    width, guidance scale, steps and the prompt that is passed on or
    enhanced.  Only the guidance and the guide document of an enhanced
    prompt are read from the live configuration at call time. *)
Theorem pipeline_arguments_from_snapshot
    (trace0 trace : list event) (j : nat) (snap : InfiniteFlux2Config) :
  let w := run initial_world trace0 in
  jobs w !! j = Some (JobStarted snap) ->
  Forall (fun e => drives_job j e = false) trace ->
  let w' := run w trace in
  jobs (step w' (EvJobCall j)) !! j =
    Some (JobCalling snap
            (snapshot_kwargs snap
               (if enhance_prompt snap
                then Enhanced (enhance_guidance (cfg (self w')))
                              (prompt_guidance_doc (cfg (self w'))) (prompt snap)
                else Plain (prompt snap)))).
Proof.
  intros w Hj Htr w'.
  destruct (job_kept_run trace j (JobStarted snap) w (wf_run trace0) Hj eq_refl Htr)
    as [_ Hj'].
  fold w' in Hj'. simpl. rewrite Hj'. unfold job_call. simpl.
  rewrite lookup_insert_eq. unfold snapshot_kwargs, enhance.
  destruct (enhance_prompt snap); reflexivity.
Qed.

Lemma snapshot_taken_world :
  jobs (run initial_world snapshot_taken) !! 0%nat =
    Some (JobStarted (cfg (self (run initial_world session_started)))) /\
  at_loop_top (run initial_world session_started) 1 = true /\
  inference_lock (self (run initial_world session_started)) = false.
Proof.
  unfold snapshot_taken, session_started. simpl app. rewrite !run_cons.
  destruct (load_default "") as [ph ->].
  split; [|split]; vm_compute; reflexivity.
Qed.

Lemma pipeline_arguments_from_snapshot_witness :
  let snap := cfg (self (run initial_world session_started)) in
  let w' := run (run initial_world snapshot_taken)
              [EvUpdate enhance_request; EvSendTick 0 false; EvStop] in
  jobs (step w' (EvJobCall 0)) !! 0%nat =
    Some (JobCalling snap
            (snapshot_kwargs snap
               (if enhance_prompt snap
                then Enhanced (enhance_guidance (cfg (self w')))
                              (prompt_guidance_doc (cfg (self w'))) (prompt snap)
                else Plain (prompt snap)))).
Proof.
  apply (pipeline_arguments_from_snapshot snapshot_taken
           [EvUpdate enhance_request; EvSendTick 0 false; EvStop] 0).
  - exact (proj1 snapshot_taken_world).
  - repeat constructor.
Defined.

(** ** Starting a session *)

Lemma on_start_rejected (w : world) (p : gmap string pyval)
    (c : InfiniteFlux2Config) (e : exn) :
  runner_ready (self w) = true ->
  update_params p (cfg (self w)) = (c, Ok tt) ->
  create_placeholder_frame c = Raise e ->
  on_start p w =
    surface e (upd_self (set_cfg c) (upd_self (set_background_task_started false) w)).
Proof.
  intros Hr Hup Hph. unfold on_start, call_update_params. simpl.
  rewrite Hr. simpl. rewrite Hup. simpl. rewrite Hph. reflexivity.
Qed.

Lemma on_start_bad_params (w : world) (p : gmap string pyval)
    (c : InfiniteFlux2Config) (e : exn) :
  runner_ready (self w) = true ->
  update_params p (cfg (self w)) = (c, Raise e) ->
  on_start p w =
    surface e (upd_self (set_cfg c) (upd_self (set_background_task_started false) w)).
Proof.
  intros Hr Hup. unfold on_start, call_update_params. simpl.
  rewrite Hr. simpl. rewrite Hup. reflexivity.
Qed.

Lemma update_params_keeps_size (d : gmap string pyval) (c c' : InfiniteFlux2Config)
    (r : result unit) :
  d !! "params" = None -> d !! "height" = None -> d !! "width" = None ->
  update_params d c = (c', r) ->
  height c' = height c /\ width c' = width c.
Proof.
  intros Hp Hh Hw H. unfold update_params, request_body in H. rewrite Hp in H.
  unfold_stmt. unfold params_get in H. simpl in H. rewrite Hh, Hw in H. simpl in H.
  repeat (case_result; simpl in H);
    inversion H; subst; clear H; simpl; split; reflexivity.
Qed.

(** X14.  A start whose request leaves the shorter side of the frame
    between 0 and 15, with sides that the image allocation takes (height
    at most [2^31 - 1], width at most [(2^31 - 1) // 4 - 1]), fails with
    [ZeroDivisionError] after the configuration has taken the requested
    size.  The size stays: the next start that
    names neither height nor width fails as well (with [ZeroDivisionError]
    when its own parameters are accepted), and no task is started by
    either. *)
Theorem rejected_dimension_persists (w : world) (p p' : gmap string pyval)
    (c : InfiniteFlux2Config) :
  runner_ready (self w) = true ->
  update_params p (cfg (self w)) = (c, Ok tt) ->
  0 <= height c <= c_int_max -> 0 <= width c <= max_line_pixels ->
  Z.min (width c) (height c) < 16 ->
  p' !! "params" = None -> p' !! "height" = None -> p' !! "width" = None ->
  let w1 := step w (EvStart p) in
  let w2 := step w1 (EvStart p') in
  surfaced w1 = surfaced w ++ [ZeroDivisionError] /\
  (exists e, surfaced w2 = surfaced w1 ++ [e] /\
     (is_ok (snd (update_params p' c)) = true -> e = ZeroDivisionError)) /\
  tasks w2 = tasks w /\ sent w2 = sent w /\
  height (cfg (self w2)) = height c /\ width (cfg (self w2)) = width c.
Proof.
  intros Hr Hup Hh Hw Hmin Hpar Hph Hpw w1 w2.
  destruct (placeholder_zero_square c Hh Hw Hmin) as [_ Hzero].
  assert (E1 : w1 = surface ZeroDivisionError
                 (upd_self (set_cfg c) (upd_self (set_background_task_started false) w)))
    by exact (on_start_rejected w p c _ Hr Hup Hzero).
  assert (Hr1 : runner_ready (self w1) = true) by (rewrite E1; exact Hr).
  assert (Hc1 : cfg (self w1) = c) by (rewrite E1; reflexivity).
  split; [rewrite E1; reflexivity|].
  destruct (update_params p' c) as [c2 [[]|ex]] eqn:Hup2.
  - destruct (update_params_absent_keys p' c c2 Hpar Hup2) as (Hk1 & Hk2 & _).
    specialize (Hk1 Hph). specialize (Hk2 Hpw).
    assert (Hzero2 : create_placeholder_frame c2 = Raise ZeroDivisionError).
    { apply placeholder_zero_square; rewrite ?Hk1, ?Hk2; assumption. }
    assert (E2 : w2 = surface ZeroDivisionError
                   (upd_self (set_cfg c2)
                      (upd_self (set_background_task_started false) w1))).
    { apply on_start_rejected; [exact Hr1|rewrite Hc1; exact Hup2|exact Hzero2]. }
    split; [exists ZeroDivisionError; split; [rewrite E2; reflexivity|reflexivity]|].
    rewrite E2, E1. simpl. repeat split; assumption.
  - assert (E2 : w2 = surface ex
                   (upd_self (set_cfg c2)
                      (upd_self (set_background_task_started false) w1))).
    { apply on_start_bad_params; [exact Hr1|rewrite Hc1; exact Hup2]. }
    assert (Hsame : height c2 = height c /\ width c2 = width c)
      by exact (update_params_keeps_size p' c c2 _ Hpar Hph Hpw Hup2).
    split; [exists ex; split; [rewrite E2; reflexivity|discriminate]|].
    rewrite E2, E1. simpl. repeat split; apply Hsame.
Qed.

Lemma rejected_dimension_persists_witness :
  let w := step initial_world (EvLoad "" true) in
  let c := fst (update_params tiny_request (set_prompt_guidance_doc "" default_cfg)) in
  let w1 := step w (EvStart tiny_request) in
  let w2 := step w1 (EvStart ∅) in
  surfaced w1 = surfaced w ++ [ZeroDivisionError] /\
  (exists e, surfaced w2 = surfaced w1 ++ [e] /\
     (is_ok (snd (update_params ∅ c)) = true -> e = ZeroDivisionError)) /\
  tasks w2 = tasks w /\ sent w2 = sent w /\
  height (cfg (self w2)) = height c /\ width (cfg (self w2)) = width c.
Proof.
  apply (rejected_dimension_persists (step initial_world (EvLoad "" true))
           tiny_request ∅
           (fst (update_params tiny_request (set_prompt_guidance_doc "" default_cfg)))).
  - destruct (load_default "") as [ph ->]. vm_compute. reflexivity.
  - destruct (load_default "") as [ph ->]. vm_compute. reflexivity.
  - vm_compute. intuition discriminate.
  - vm_compute. intuition discriminate.
  - vm_compute. reflexivity.
  - reflexivity.
  - reflexivity.
  - reflexivity.
Defined.

(** ** One pass of the synthesis loop *)

Lemma step_gen_run_free (w : world) (t : nat) :
  at_loop_top w t = true -> inference_lock (self w) = false ->
  step w (EvGenRun t false) = enter_lock t (upd_self (set_interrupt_requested false) w).
Proof.
  intros Ht Hl. unfold at_loop_top in Ht. simpl.
  destruct (tasks w !! t) as [[[| |j| |]|]|]; try discriminate Ht;
    unfold gen_loop_top; simpl; rewrite Hl; reflexivity.
Qed.

Lemma step_job_start (w : world) (j : nat) :
  jobs w !! j = Some JobSubmitted -> step w (EvJobStart j) = job_start j w.
Proof. intros H. simpl. rewrite H. reflexivity. Qed.

Lemma step_job_call (w : world) (j : nat) (snap : InfiniteFlux2Config) :
  jobs w !! j = Some (JobStarted snap) -> step w (EvJobCall j) = job_call j snap w.
Proof. intros H. simpl. rewrite H. reflexivity. Qed.

Lemma step_job_finish (w : world) (j : nat) snap kw (out : engine_outcome) :
  jobs w !! j = Some (JobCalling snap kw) ->
  step w (EvJobFinish j out) = job_finish j out w.
Proof. intros H. simpl. rewrite H. reflexivity. Qed.

Lemma step_gen_job_done (w : world) (t j : nat) (r : result pil_image) (entropy : Z) :
  tasks w !! t = Some (GenTask (GenInThread j)) -> jobs w !! j = Some (JobFinished r) ->
  step w (EvGenJobDone t entropy) = gen_job_done t j r entropy w.
Proof. intros Ht Hj. simpl. rewrite Ht, Hj. reflexivity. Qed.

(** X15.  One pass of the synthesis loop that finds the lock free and
    whose pipeline call returns an image: the image becomes the current
    frame, the seed is adjusted once, the inference counter goes up by
    one, the lock is free again, the in-progress flag is down, the task
    sleeps before its next pass, and no worker thread is left behind. *)
Theorem successful_pass_publishes
    (trace0 : list event) (t : nat) (img : pil_image) (entropy : Z) :
  let w := run initial_world trace0 in
  at_loop_top w t = true -> inference_lock (self w) = false ->
  let w' := run w (successful_pass t (next_job w) img entropy) in
  current_frame (self w') = Some (pil_to_bhwc img) /\
  cfg (self w') = advance_seed entropy (cfg (self w)) /\
  inference_count (self w') = inference_count (self w) + 1 /\
  inference_lock (self w') = false /\
  inference_in_progress (self w') = false /\
  tasks w' = <[t := GenTask GenSleeping]> (tasks w) /\
  jobs w' = jobs w /\
  sent w' = sent w.
Proof.
  intros w Ht Hl w'. subst w'.
  assert (Hfresh : jobs w !! next_job w = None).
  { destruct (wf_run trace0) as (_ & Hfj & _). fold w in Hfj.
    destruct (jobs w !! next_job w) as [x|] eqn:E; [|reflexivity].
    apply Hfj in E. lia. }
  set (j := next_job w) in *.
  unfold successful_pass.
  change (run w [EvGenRun t false; EvJobStart j; EvJobCall j;
                 EvJobFinish j (Returned img); EvGenJobDone t entropy])
    with (step (step (step (step (step w (EvGenRun t false)) (EvJobStart j))
                  (EvJobCall j)) (EvJobFinish j (Returned img)))
            (EvGenJobDone t entropy)).
  rewrite (step_gen_run_free w t Ht Hl).
  rewrite (step_job_start _ j) by (subst j; simpl; apply lookup_insert_eq).
  rewrite (step_job_call _ j (cfg (self w))) by (simpl; apply lookup_insert_eq).
  erewrite (step_job_finish _ j) by (simpl; apply lookup_insert_eq).
  rewrite (step_gen_job_done _ t j (Ok img))
    by (simpl; first [apply lookup_insert_eq|idtac]; subst j; apply lookup_insert_eq).
  simpl. subst j.
  rewrite !insert_insert_eq, delete_insert_eq, (delete_id _ _ Hfresh).
  repeat split.
Qed.

Lemma successful_pass_publishes_witness :
  let w := run initial_world session_started in
  let w' := run w (successful_pass 1 (next_job w) one_pixel 5) in
  current_frame (self w') = Some (pil_to_bhwc one_pixel) /\
  cfg (self w') = advance_seed 5 (cfg (self w)) /\
  inference_count (self w') = inference_count (self w) + 1 /\
  inference_lock (self w') = false /\
  inference_in_progress (self w') = false /\
  tasks w' = <[1%nat := GenTask GenSleeping]> (tasks w) /\
  jobs w' = jobs w /\
  sent w' = sent w.
Proof.
  apply (successful_pass_publishes session_started 1 one_pixel 5).
  - exact (proj1 (proj2 snapshot_taken_world)).
  - exact (proj2 (proj2 snapshot_taken_world)).
Defined.
